(** * Waiting for machine states: [WaitForStartOrStop] and
    [WaitForAnyMachineState] of package [machine]

    A shallow embedding of the two waiters.  The flaps client, the
    contexts and the goroutine scheduler are the environment: a run of
    [WaitForStartOrStop] is driven by the list of answers the status
    query gives, a run of [WaitForAnyMachineState] by the order in which
    the goroutines and the coordinator take the mutex.  Tracing spans
    only record what is returned and are left out. *)

From Stdlib Require Import List String Ascii ZArith Lia Bool Arith Permutation.
From Stdlib Require Import DecimalString.
Import ListNotations.
Local Open Scope string_scope.

(** ** Go values the waiters handle *)

(** [time.Duration]: a count of nanoseconds. *)
Definition Duration := Z.
Definition Millisecond : Duration := 1000000%Z.
Definition Second : Duration := (1000 * Millisecond)%Z.

(** [http.StatusBadRequest]. *)
Definition StatusBadRequest : Z := 400%Z.

(** [strings.HasPrefix] and [strings.Contains]. *)
Fixpoint HasPrefix (s prefix : string) : bool :=
  match prefix, s with
  | EmptyString, _ => true
  | String _ _, EmptyString => false
  | String p prefix', String c s' => Ascii.eqb c p && HasPrefix s' prefix'
  end.

Fixpoint Contains (s substr : string) : bool :=
  HasPrefix s substr ||
  match s with
  | EmptyString => false
  | String _ s' => Contains s' substr
  end.

(** [WaitTimeoutErr], the struct of line 138. *)
Record WaitTimeoutErr := {
  machineID : string;
  timeout : Duration;
  desiredState : string
}.

(** The [error] values that occur: what the flaps client hands back
    (its text, and the response status code when [errors.As] finds a
    [*flaps.FlapsError] in its chain), [flyerr.GenericErr], the timeout
    error and the results of [fmt.Errorf]: the formatted text, and the
    operand of [%w] when the format has one. *)
Inductive error : Type :=
| ClientErr (text : string) (ResponseStatusCode : option Z)
| GenericErr (Err Descript Suggest DocUrl : string)
| TimeoutErr (e : WaitTimeoutErr)
| Errorf (text : string)
| ErrorfWrap (text : string) (wrapped : error).

(** [err.Error()]. *)
Definition Error (err : error) : string :=
  match err with
  | ClientErr text _ => text
  | GenericErr Err _ _ _ => Err
  | TimeoutErr _ => "timeout reached waiting for machine's state to change"
  | Errorf text => text
  | ErrorfWrap text _ => text
  end.

(** [errors.As(err, &flapsErr)]: the status code of the first
    [*flaps.FlapsError] of the chain. *)
Fixpoint AsFlapsError (err : error) : option Z :=
  match err with
  | ClientErr _ code => code
  | ErrorfWrap _ w => AsFlapsError w
  | _ => None
  end.

Definition invalidAction : error :=
  GenericErr "action must be either start or stop"
             EmptyString
             "This is a bug in wait function, please report this at https://community.fly.io"
             EmptyString.

(** The part of [fly.Machine] the waiters read.  [Config] and [Restart]
    are pointers. *)
Record MachineRestart := { Policy : string }.
Record MachineConfig := { Restart : option MachineRestart }.
Record Machine := { ID : string; Config : option MachineConfig }.

(** [waitCtx.Err()]. *)
Inductive ctxErr := ctxLive | Canceled | DeadlineExceeded.

(** ** The backoff policy *)

(** Modelled from the spec: the [backoff.Backoff] value of
    github.com/jpillora/backoff, whose [Duration] method is not part of
    this repository.  The policy is exponential: the interval of attempt
    [k] is [Min * Factor ^ k], kept between [Min] and [Max]; the value
    counts its attempts, so one instance grows until [Max] and stays
    there.  Jitter is never switched on by the waiter and has no model. *)
Module backoff.

Record Backoff := {
  Min : Duration;
  Max : Duration;
  Factor : Z;
  Jitter : bool;
  attempt : nat
}.

Definition ForAttempt (b : Backoff) (k : nat) : Duration :=
  Z.max (Min b) (Z.min (Min b * Factor b ^ Z.of_nat k) (Max b)).

Definition Duration (b : Backoff) : Duration * Backoff :=
  (ForAttempt b (attempt b),
   {| Min := Min b; Max := Max b; Factor := Factor b; Jitter := Jitter b;
      attempt := S (attempt b) |}).

End backoff.

(** ** [WaitForStartOrStop] *)

(** What a run does to the outside world, in order. *)
Inductive effect :=
| Wait (state : string) (perAttempt : Duration)
| Sleep (d : Duration).

(** How a run ends: it returns an error value ([None] is [nil]), it
    panics on a nil [machine.Config], or the answers given so far leave
    it in its loop. *)
Inductive outcome :=
| Returned (err : option error)
| Panicked
| Looping.

(** One answer of the environment to an iteration of the loop: the
    result of [flapsClient.Wait] and what [waitCtx.Err()] reads when the
    [switch] consults it.  The two cases read it one after the other; a
    context only ever goes from live to cancelled or expired, so a
    change between the two reads selects the same case as a single read
    of the later value (expired) or of the earlier one (live). *)
Definition answer : Type := option error * ctxErr.

(** What the [switch] of lines 51-69 decides about a failed query. *)
Inductive verdict :=
| Stop (r : outcome)
| Retry.

Section Waiter.

(** [fly.MachineRestartPolicyNo], a constant of fly-go. *)
Variable MachineRestartPolicyNo : string.

(** The two [if]s of the [default] case, lines 61-68. *)
Definition onPayload (machine : Machine) (err : error) : verdict :=
  let badRequest :=
    match AsFlapsError err with
    | Some code =>
      if (code =? StatusBadRequest)%Z then
        Stop (Returned (Some (ErrorfWrap ("failed waiting for machine: " ++ Error err) err)))
      else Retry
    | None => Retry
    end in
  if Contains (Error err) "machine failed to reach desired state" then
    match Config machine with
    | None => Stop Panicked
    | Some config =>
      match Restart config with
      | Some restart =>
        if String.eqb (Policy restart) MachineRestartPolicyNo then
          Stop (Returned (Some (Errorf
            ("machine failed to reach desired start state, and restart policy was set to "
               ++ Policy restart ++ " restart"))))
        else badRequest
      | None => badRequest
      end
    end
  else badRequest.

(** The [switch] of lines 51-69. *)
Definition onError (machine : Machine) (timeout : Duration) (waitOnAction : string)
           (err : error) (cerr : ctxErr) : verdict :=
  match cerr with
  | Canceled => Stop (Returned (Some err))
  | DeadlineExceeded =>
    Stop (Returned (Some (TimeoutErr {| machineID := ID machine;
                                        timeout := timeout;
                                        desiredState := waitOnAction |})))
  | ctxLive => onPayload machine err
  end.

Definition after (e : effect) (r : outcome * list effect) : outcome * list effect :=
  (fst r, e :: snd r).

(** The [for] loop of lines 45-70. *)
Fixpoint waitLoop (machine : Machine) (timeout : Duration) (waitOnAction : string)
         (b : backoff.Backoff) (answers : list answer) : outcome * list effect :=
  match answers with
  | [] => (Looping, [])
  | (err, cerr) :: answers' =>
    after (Wait waitOnAction (60 * Second)%Z)
      match err with
      | None => (Returned None, [])
      | Some err =>
        match onError machine timeout waitOnAction err cerr with
        | Stop r => (r, [])
        | Retry =>
          let (d, b') := backoff.Duration b in
          after (Sleep d) (waitLoop machine timeout waitOnAction b' answers')
        end
      end
  end.

(** The [switch] of lines 30-37. *)
Definition waitOn (action : string) : option string :=
  if String.eqb action "start" then Some "started"
  else if String.eqb action "stop" then Some "stopped"
  else None.

(** The policy of lines 39-44. *)
Definition newBackoff : backoff.Backoff :=
  {| backoff.Min := (500 * Millisecond)%Z;
     backoff.Max := (2 * Second)%Z;
     backoff.Factor := 2;
     backoff.Jitter := false;
     backoff.attempt := 0 |}.

Definition WaitForStartOrStop (machine : Machine) (action : string) (timeout : Duration)
           (answers : list answer) : outcome * list effect :=
  match waitOn action with
  | None => (Returned (Some invalidAction), [])
  | Some waitOnAction => waitLoop machine timeout waitOnAction newBackoff answers
  end.

(** [WaitTimeoutErr.Description].  [%s] prints a [time.Duration]
    through its [String] method, a function of the Go library. *)
Variable DurationString : Duration -> string.

Definition quote : string := String (ascii_of_nat 34) EmptyString.

Definition Description (e : WaitTimeoutErr) : string :=
  "The machine " ++ machineID e ++ " took more than " ++ DurationString (timeout e)
    ++ " to reach " ++ quote ++ desiredState e ++ quote.

Definition DesiredState (e : WaitTimeoutErr) : string := desiredState e.

End Waiter.

(** ** [WaitForAnyMachineState] *)

(** The variables of lines 87-89, shared by the goroutines and the
    coordinator and only touched with the mutex held. *)
Record shared := {
  waitErr : option error;
  numCompleted : nat;
  successfulState : string
}.

(** What the scheduler lets happen next: goroutine [i] (the one started
    for [possibleStates[i]]) has its answer and takes the mutex, or the
    coordinator takes it for one round of its loop. *)
Inductive event :=
| Finish (i : nat)
| Poll.

(** What a call amounts to: the queries its goroutines issue, the pair
    it returns ([None] while the coordinator is still in its loop) and
    the status line as the goroutines have left it by then. *)
Record raceRun (UI : Type) := {
  queries : list effect;
  returned : option (string * option error);
  screen : UI
}.
Arguments queries {UI}.
Arguments returned {UI}.
Arguments screen {UI}.

Section Race.

(** [statuslogger.StatusLine] is an interface; a non-nil value is its
    [LogStatus] method, which acts on the terminal [UI]. *)
Context {UI Status : Type}.
Variable StatusRunning : Status.
Definition StatusLine : Type := Status -> string -> UI -> UI.

(** The critical section of a goroutine, lines 95-113, entered with the
    result [err] of its query. *)
Definition watcher (sl : option StatusLine) (mach : Machine) (state : string)
           (err : option error) (s : shared) (ui : UI) : shared * UI :=
  let done (s' : shared) :=
    {| waitErr := waitErr s';
       numCompleted := numCompleted s' + 1;
       successfulState := successfulState s' |} in
  if negb (String.eqb (successfulState s) EmptyString) then (done s, ui)
  else
    let ui' :=
      match sl with
      | Some LogStatus =>
        LogStatus StatusRunning ("Machine " ++ ID mach ++ " reached " ++ state ++ " state") ui
      | None => ui
      end in
    match err with
    | Some e =>
      (done {| waitErr := Some e;
               numCompleted := numCompleted s;
               successfulState := successfulState s |}, ui')
    | None =>
      (done {| waitErr := waitErr s;
               numCompleted := numCompleted s;
               successfulState := state |}, ui')
    end.

(** One round of the coordinator's loop, lines 119-132. *)
Definition poll (possibleStates : list string) (s : shared) : option (string * option error) :=
  if negb (String.eqb (successfulState s) EmptyString)
     || (numCompleted s =? List.length possibleStates)%nat
  then Some (successfulState s, waitErr s)
  else None.

(** The goroutines and the coordinator under a schedule.  [results i]
    is what the query of goroutine [i] returns.  An event for a
    goroutine that was never started changes nothing. *)
Fixpoint race (sl : option StatusLine) (mach : Machine) (possibleStates : list string)
         (results : nat -> option error) (sched : list event) (s : shared) (ui : UI)
  : option (string * option error) * UI :=
  match sched with
  | [] => (None, ui)
  | Poll :: sched' =>
    match poll possibleStates s with
    | Some r => (Some r, ui)
    | None => race sl mach possibleStates results sched' s ui
    end
  | Finish i :: sched' =>
    match nth_error possibleStates i with
    | Some state =>
      let (s', ui') := watcher sl mach state (results i) s ui in
      race sl mach possibleStates results sched' s' ui'
    | None => race sl mach possibleStates results sched' s ui
    end
  end.

Definition WaitForAnyMachineState (mach : Machine) (possibleStates : list string)
           (timeout : Duration) (sl : option StatusLine)
           (results : nat -> option error) (sched : list event) (ui : UI) : raceRun UI :=
  let r := race sl mach possibleStates results sched
                {| waitErr := None; numCompleted := 0; successfulState := EmptyString |} ui in
  {| queries := map (fun state => Wait state timeout) possibleStates;
     returned := fst r;
     screen := snd r |}.

End Race.

(** The goroutines of a schedule, in the order they take the mutex. *)
Fixpoint finishes (sched : list event) : list nat :=
  match sched with
  | [] => []
  | Finish i :: sched' => i :: finishes sched'
  | Poll :: sched' => finishes sched'
  end.

(** A schedule of a call with [n] candidate states.  Every query is
    bounded by the shared deadline, so each of the [n] goroutines takes
    the mutex once, in any order; the coordinator has any number of
    rounds in between and, as it keeps polling, one after the last
    goroutine.  The events that follow the round in which the
    coordinator returns are those of the goroutines that outlive the
    call. *)
Definition fair (n : nat) (sched : list event) : Prop :=
  Permutation (finishes sched) (seq 0 n) /\ exists sched', sched = (sched' ++ [Poll])%list.

(** The shared variables after one critical section, and after the
    critical sections of the goroutines [fs] in that order. *)
Definition update (state : string) (err : option error) (s : shared) : shared :=
  if negb (String.eqb (successfulState s) EmptyString) then
    {| waitErr := waitErr s; numCompleted := numCompleted s + 1;
       successfulState := successfulState s |}
  else
    match err with
    | Some e =>
      {| waitErr := Some e; numCompleted := numCompleted s + 1;
         successfulState := successfulState s |}
    | None =>
      {| waitErr := waitErr s; numCompleted := numCompleted s + 1;
         successfulState := state |}
    end.

Fixpoint settle (possibleStates : list string) (results : nat -> option error)
         (fs : list nat) (s : shared) : shared :=
  match fs with
  | [] => s
  | i :: fs' =>
    match nth_error possibleStates i with
    | Some state => settle possibleStates results fs' (update state (results i) s)
    | None => settle possibleStates results fs' s
    end
  end.

Definition start : shared :=
  {| waitErr := None; numCompleted := 0; successfulState := EmptyString |}.

(** What the coordinator returns, as a function of the shared variables
    alone. *)
Fixpoint coordinator (possibleStates : list string) (results : nat -> option error)
         (sched : list event) (s : shared) : option (string * option error) :=
  match sched with
  | [] => None
  | Poll :: sched' =>
    match poll possibleStates s with
    | Some r => Some r
    | None => coordinator possibleStates results sched' s
    end
  | Finish i :: sched' =>
    match nth_error possibleStates i with
    | Some state => coordinator possibleStates results sched' (update state (results i) s)
    | None => coordinator possibleStates results sched' s
    end
  end.

(** The trace of [K] retried iterations of the loop of
    [WaitForStartOrStop], started with the policy in state [b]. *)
Fixpoint retried (waitOnAction : string) (b : backoff.Backoff) (K : nat) : list effect :=
  match K with
  | O => []
  | S K' =>
    Wait waitOnAction (60 * Second)%Z
      :: Sleep (fst (backoff.Duration b))
      :: retried waitOnAction (snd (backoff.Duration b)) K'
  end.

(** The sleeps of a trace, and the number of its queries. *)
Fixpoint sleeps (t : list effect) : list Duration :=
  match t with
  | [] => []
  | Sleep d :: t' => d :: sleeps t'
  | Wait _ _ :: t' => sleeps t'
  end.

Fixpoint waits (t : list effect) : nat :=
  match t with
  | [] => 0
  | Wait _ _ :: t' => S (waits t')
  | Sleep _ :: t' => waits t'
  end.

(** The answers of a live context to queries that fail with [errs]. *)
Definition failing (errs : list error) : list answer :=
  map (fun e => (Some e, ctxLive)) errs.

(** ** Sample values *)

Definition m1 : Machine :=
  {| ID := "m1"; Config := Some {| Restart := Some {| Policy := "no" |} |} |}.
Definition e1 : error := ClientErr "connection reset" None.
Definition e2 : error := ClientErr "machine failed to reach desired state" (Some 400%Z).

Definition e3 : error := ClientErr "request timed out" (Some 408%Z).

(** Two candidate states and the two orders in which their goroutines
    can finish, with rounds of the coordinator in between. *)
Definition startedOrStopped : list string := ["started"; "stopped"].
Definition startedFirst : list event := [Poll; Finish 0; Poll; Finish 1; Poll].
Definition stoppedFirst : list event := [Poll; Finish 1; Poll; Finish 0; Poll].

(** Query results: only the second goroutine succeeds, only the first
    does, none does, all do. *)
Definition onlySecond (i : nat) : option error :=
  if (i =? 1)%nat then None else Some e1.
Definition onlyFirst (i : nat) : option error :=
  if (i =? 0)%nat then None else Some e1.
Definition noneSucceeds (i : nat) : option error :=
  if (i =? 0)%nat then Some e1 else Some e3.
Definition allSucceed (i : nat) : option error := None.

(** A status line that keeps the messages it is given. *)
Definition keep (status : unit) (message : string) (ui : list string) : list string :=
  (ui ++ [message])%list.

(** The status line after the goroutines [fs] have reported on it one
    after the other, each with the state it was started for. *)
Fixpoint reports {UI Status : Type} (StatusRunning : Status)
         (sl : option (@StatusLine UI Status)) (mach : Machine)
         (possibleStates : list string) (fs : list nat) (ui : UI) : UI :=
  match fs with
  | [] => ui
  | i :: fs' =>
    match nth_error possibleStates i, sl with
    | Some state, Some LogStatus =>
      reports StatusRunning sl mach possibleStates fs'
              (LogStatus StatusRunning
                         ("Machine " ++ ID mach ++ " reached " ++ state ++ " state") ui)
    | _, _ => reports StatusRunning sl mach possibleStates fs' ui
    end
  end.

(** ** Package [appconfig]: reading and writing the app configuration *)

Module appconfig.

Section ForEach.

Context {A B : Type}.
Variable f : A -> option B.

(** A [range] loop whose body may panic: [None] as soon as one round
    does. *)
Fixpoint forEach (l : list A) : option (list B) :=
  match l with
  | [] => Some []
  | a :: l' =>
    match f a, forEach l' with
    | Some b, Some l'' => Some (b :: l'')
    | _, _ => None
    end
  end.

End ForEach.

Section Values.

(** A decoded document, an [interface{}] value: a string, an array, a
    [map[string]interface{}], a [map[interface{}]interface{}] as yaml.v2
    makes them below the top level, or a value of any other dynamic type
    (numbers, booleans, nil, times), which this file never looks into.
    A map is listed with each of its keys once. *)
Variable Other : Type.

Inductive any : Type :=
| Str (s : string)
| Scalar (o : Other)
| Array (elems : list any)
| Map (entries : list (string * any))
| AnyMap (entries : list (any * any)).

(** [stringifyYAMLMapKeys], lines 234-252: the value it returns, which
    for an array and a [map[string]interface{}] is the argument itself
    as the function has updated it; [None] when the assertion
    [k.(string)] panics. *)
Fixpoint stringifyYAMLMapKeys (obj : any) : option any :=
  match obj with
  | Array arrayobj => option_map Array (forEach stringifyYAMLMapKeys arrayobj)
  | Map mapobj =>
    option_map Map
      (forEach (fun kv : string * any =>
                  let (k, v) := kv in
                  option_map (pair k) (stringifyYAMLMapKeys v)) mapobj)
  | AnyMap mapobj =>
    option_map Map
      (forEach (fun kv : any * any =>
                  let (k, v) := kv in
                  match k with
                  | Str s => option_map (pair s) (stringifyYAMLMapKeys v)
                  | _ => None
                  end) mapobj)
  | _ => Some obj
  end.

(** No [map[interface{}]interface{}] among the elements of arrays and
    the values of maps, at any depth. *)
Fixpoint stringKeyed (obj : any) : bool :=
  match obj with
  | Array l => forallb stringKeyed l
  | Map m => forallb (fun kv : string * any => let (_, v) := kv in stringKeyed v) m
  | AnyMap _ => false
  | _ => true
  end.

Definition isString (obj : any) : bool :=
  match obj with Str _ => true | _ => false end.

(** Some [map[interface{}]interface{}], among the elements of arrays
    and the values of maps at any depth, has a key that is not a
    string. *)
Fixpoint otherKey (obj : any) : bool :=
  match obj with
  | Array l => existsb otherKey l
  | Map m => existsb (fun kv : string * any => let (_, v) := kv in otherKey v) m
  | AnyMap m =>
    existsb (fun kv : any * any => let (k, v) := kv in negb (isString k) || otherKey v) m
  | _ => false
  end.

End Values.

Arguments Str {Other}.
Arguments Scalar {Other}.
Arguments Array {Other}.
Arguments Map {Other}.
Arguments AnyMap {Other}.
Arguments stringifyYAMLMapKeys {Other}.
Arguments stringKeyed {Other}.
Arguments otherKey {Other}.
Arguments isString {Other}.

(** [fmt]'s [%d] of an [int]. *)
Definition itoa (n : Z) : string := NilZero.string_of_int (Z.to_int n).

(** [io.ErrShortWrite]. *)
Definition ErrShortWrite : error := Errorf "short write".

Definition newline : string := String (ascii_of_nat 10) EmptyString.

(** [strings.HasSuffix]. *)
Definition HasSuffix (s suffix : string) : bool :=
  (String.length suffix <=? String.length s)%nat
  && String.eqb (substring (String.length s - String.length suffix)
                           (String.length suffix) s) suffix.

(** [filepath.Ext]: the loop runs from the last byte of the path down to
    the first path separator and returns the path from the first dot it
    meets; [rest] holds the bytes still to visit, last first, and [seen]
    the bytes already passed. *)
Fixpoint extFrom (IsPathSeparator : ascii -> bool) (rest : list ascii) (seen : string)
  : string :=
  match rest with
  | [] => EmptyString
  | c :: rest' =>
    if IsPathSeparator c then EmptyString
    else if Ascii.eqb c "." then String c seen
    else extFrom IsPathSeparator rest' (String c seen)
  end.

Definition Ext (IsPathSeparator : ascii -> bool) (path : string) : string :=
  extFrom IsPathSeparator (rev (list_ascii_of_string path)) EmptyString.

(** What a call comes to: its results, or a panic. *)
Inductive result (A : Type) :=
| Ok (a : A)
| Err (e : error)
| Panic.
Arguments Ok {A}.
Arguments Err {A}.
Arguments Panic {A}.

Section Serde.

Variable Other : Type.

(** [Config]: the fields this file reads and writes; [fields] stands for
    all the others. *)
Variable Fields : Type.

Record Config := {
  AppName : string;
  configFilePath : string;
  v2UnmarshalError : option error;
  fields : Fields
}.

(** A failure of [toml.Unmarshal]: the error, and the position and text
    of the [*toml.DecodeError] that [errors.As] finds in it, if any. *)
Record tomlFailure := {
  tomlError : error;
  asDecodeError : option (Z * Z * string)
}.

(** The libraries and the rest of the package, as this file uses them:
    the three decoders into a [map[string]any], [applyPatches] (its two
    results: a pointer and an error), the encoders, and the zero value
    of the fields of [Config] this file does not name. *)
Record Library := {
  jsonUnmarshal : string -> error + list (string * any Other);
  yamlUnmarshal : string -> error + list (string * any Other);
  tomlUnmarshal : string -> tomlFailure + list (string * any Other);
  applyPatches : list (string * any Other) -> option Config * option error;
  jsonMarshal : option Config -> error + string;
  jsonMarshalIndent : option Config -> error + string;
  yamlMarshal : list (string * any Other) -> error + string;
  tomlEncode : Config -> error + string;
  zeroFields : Fields
}.

Variable lib : Library.

(** [raw[key]] on a [map[string]any]. *)
Fixpoint lookup (key : string) (m : list (string * any Other)) : option (any Other) :=
  match m with
  | [] => None
  | (k, v) :: m' => if String.eqb k key then Some v else lookup key m'
  end.

(** [&Config{v2UnmarshalError: err}], with [AppName] set from
    [raw["app"]] when that is a string: lines 175-178 and their two
    copies. *)
Definition bare (err : error) (raw : list (string * any Other)) : Config :=
  {| AppName := match lookup "app" raw with
                | Some (Str name) => name
                | _ => EmptyString
                end;
     configFilePath := EmptyString;
     v2UnmarshalError := Some err;
     fields := zeroFields lib |}.

Definition unmarshalTOML (buf : string) : result (option Config) :=
  match tomlUnmarshal lib buf with
  | inl failure =>
    match asDecodeError failure with
    | Some (row, col, text) =>
      Err (Errorf ("row " ++ itoa row ++ " column " ++ itoa col ++ newline ++ text))
    | None => Err (tomlError failure)
    end
  | inr cfgMap =>
    match applyPatches lib cfgMap with
    | (cfg, None) => Ok cfg
    | (_, Some err) =>
      match tomlUnmarshal lib buf with
      | inl failure => Err (tomlError failure)
      | inr raw => Ok (Some (bare err raw))
      end
    end
  end.

Definition unmarshalJSON (buf : string) : result (option Config) :=
  match jsonUnmarshal lib buf with
  | inl err => Err err
  | inr cfgMap =>
    match applyPatches lib cfgMap with
    | (cfg, None) => Ok cfg
    | (_, Some err) =>
      match jsonUnmarshal lib buf with
      | inl err' => Err err'
      | inr raw => Ok (Some (bare err raw))
      end
    end
  end.

(** [stringifyYAMLMapKeys(cfgMap)] updates [cfgMap], a
    [map[string]any], in place; the patches then see the updated map. *)
Definition unmarshalYAML (buf : string) : result (option Config) :=
  match yamlUnmarshal lib buf with
  | inl err => Err err
  | inr cfgMap =>
    match stringifyYAMLMapKeys (Map cfgMap) with
    | Some (Map cfgMap') =>
      match applyPatches lib cfgMap' with
      | (cfg, None) => Ok cfg
      | (_, Some err) =>
        match yamlUnmarshal lib buf with
        | inl err' => Err err'
        | inr raw => Ok (Some (bare err raw))
        end
      end
    | _ => Panic
    end
  end.

(** [LoadConfig], given what [os.ReadFile] returns for the path. *)
Definition LoadConfig (ReadFile : string -> error + string) (path : string)
  : result Config :=
  match ReadFile path with
  | inl err => Err err
  | inr buf =>
    match (if HasSuffix path ".json" then unmarshalJSON buf
           else if HasSuffix path ".yaml" then unmarshalYAML buf
           else unmarshalTOML buf) with
    | Err err => Err err
    | Panic => Panic
    | Ok None => Panic
    | Ok (Some cfg) =>
      Ok {| AppName := AppName cfg;
            configFilePath := path;
            v2UnmarshalError := v2UnmarshalError cfg;
            fields := fields cfg |}
    end
  end.

(** [MarshalAsYAML], lines 110-129. *)
Definition MarshalAsYAML (c : option Config) : error + string :=
  match c with
  | None => jsonMarshal lib None
  | Some _ =>
    match jsonMarshal lib c with
    | inl err => inl err
    | inr jsonConfig =>
      match jsonUnmarshal lib jsonConfig with
      | inl err => inl err
      | inr cfgMap => yamlMarshal lib cfgMap
      end
    end
  end.

(** [marshalTOML], lines 141-154. *)
Definition marshalTOML (c : option Config) : error + string :=
  match c with
  | None => inr EmptyString
  | Some cfg => tomlEncode lib cfg
  end.

(** [flytomlHeader] filled in with the app name and the time. *)
Definition header (appName now : string) : string :=
  "# fly.toml app configuration file generated for " ++ appName ++ " on " ++ now ++ newline
  ++ "#" ++ newline
  ++ "# See https://fly.io/docs/reference/configuration/ for information about how to use this file."
  ++ newline
  ++ "#" ++ newline
  ++ newline.

(** An [io.Writer]: its state, and [Write] with the count and the error
    it returns. *)
Variable W : Type.
Variable Write : string -> W -> (Z * option error) * W.

(** How a write to [w] ends: the count and the error returned, or a
    panic; and the writer afterwards. *)
Inductive written :=
| Wrote (n : Z) (err : option error) (w : W)
| WritePanic (w : W).

(** [bytes.NewBuffer(b).WriteTo(w)]. *)
Definition BufferWriteTo (b : string) (w : W) : written :=
  if (0 <? String.length b)%nat then
    let '((m, e), w') := Write b w in
    if (Z.of_nat (String.length b) <? m)%Z then WritePanic w'
    else
      match e with
      | Some err => Wrote m (Some err) w'
      | None =>
        if (m =? Z.of_nat (String.length b))%Z then Wrote m None w'
        else Wrote m (Some ErrShortWrite) w'
      end
  else Wrote 0 None w.

(** [WriteTo], lines 51-71; [now] is [time.Now().Format(time.RFC3339)]. *)
Definition WriteTo (now : string) (c : option Config) (w : W) (format : string) : written :=
  match (if String.eqb format "json" then jsonMarshalIndent lib c
         else if String.eqb format "yaml" then MarshalAsYAML c
         else marshalTOML c) with
  | inl err => Wrote 0 (Some err) w
  | inr b =>
    match c with
    | None => WritePanic w
    | Some cfg =>
      let '((_, e), w') := Write (header (AppName cfg) now) w in
      match e with
      | Some err => Wrote 0 (Some err) w'
      | None => BufferWriteTo b w'
      end
    end
  end.

(** The file system as [WriteToFile] meets it: the result of
    [helpers.MkdirAll], of [os.Create] (the new file, as a writer) and
    of [file.Close], and the path separators of the platform. *)
Record Disk := {
  IsPathSeparator : ascii -> bool;
  MkdirAll : string -> option error;
  Create : string -> error + W;
  Close : W -> option error
}.

(** How [WriteToFile] ends, the file it created if it got that far, as
    the writes left it, and whether the file was closed. *)
Inductive ending :=
| Returns (err : option error)
| Panics.

Record fileRun := {
  ended : ending;
  file : option W;
  closed : bool
}.

(** [WriteToFile], lines 73-90. *)
Definition WriteToFile (disk : Disk) (now : string) (c : option Config) (filename : string)
  : fileRun :=
  match MkdirAll disk filename with
  | Some err => {| ended := Returns (Some err); file := None; closed := false |}
  | None =>
    match Create disk filename with
    | inl err => {| ended := Returns (Some err); file := None; closed := false |}
    | inr f =>
      match WriteTo now c f (Ext (IsPathSeparator disk) filename) with
      | Wrote _ err f' =>
        {| ended := Returns (match err with
                             | None => Close disk f'
                             | Some _ => err
                             end);
           file := Some f';
           closed := true |}
      | WritePanic f' => {| ended := Panics; file := Some f'; closed := true |}
      end
    end
  end.

End Serde.

Arguments Build_Config {Fields}.
Arguments AppName {Fields}.
Arguments configFilePath {Fields}.
Arguments v2UnmarshalError {Fields}.
Arguments fields {Fields}.
Arguments Build_Library {Other Fields}.
Arguments jsonUnmarshal {Other Fields}.
Arguments yamlUnmarshal {Other Fields}.
Arguments tomlUnmarshal {Other Fields}.
Arguments applyPatches {Other Fields}.
Arguments jsonMarshal {Other Fields}.
Arguments jsonMarshalIndent {Other Fields}.
Arguments yamlMarshal {Other Fields}.
Arguments tomlEncode {Other Fields}.
Arguments zeroFields {Other Fields}.
Arguments lookup {Other}.
Arguments bare {Other Fields}.
Arguments unmarshalTOML {Other Fields}.
Arguments unmarshalJSON {Other Fields}.
Arguments unmarshalYAML {Other Fields}.
Arguments LoadConfig {Other Fields}.
Arguments MarshalAsYAML {Other Fields}.
Arguments marshalTOML {Other Fields}.
Arguments Wrote {W}.
Arguments WritePanic {W}.
Arguments BufferWriteTo {W}.
Arguments WriteTo {Other Fields} lib {W}.
Arguments Build_Disk {W}.
Arguments IsPathSeparator {W}.
Arguments MkdirAll {W}.
Arguments Create {W}.
Arguments Close {W}.
Arguments Build_fileRun {W}.
Arguments ended {W}.
Arguments file {W}.
Arguments closed {W}.
Arguments WriteToFile {Other Fields} lib {W}.

(** A writer that keeps what it is given, as a [bytes.Buffer] does. *)
Definition bufferWrite (p : string) (w : string) : (Z * option error) * string :=
  ((Z.of_nat (String.length p), None), w ++ p).

(** Sample libraries: both encode a configuration to TOML as a line
    with the app name; the first has working JSON and YAML encoders and
    patches that accept every document, the second has failing ones. *)
Definition sampleTOML (c : Config unit) : error + string :=
  inr ("app = " ++ AppName c).

Definition lenient : Library unit unit :=
  {| jsonUnmarshal := fun _ => inr [];
     yamlUnmarshal := fun _ => inr [];
     tomlUnmarshal := fun _ => inr [("app", Str "web")];
     applyPatches := fun _ => (Some {| AppName := "web"; configFilePath := EmptyString;
                                       v2UnmarshalError := None; fields := tt |}, None);
     jsonMarshal := fun _ => inr "{}";
     jsonMarshalIndent := fun _ => inr "{}";
     yamlMarshal := fun _ => inr "{}";
     tomlEncode := sampleTOML;
     zeroFields := tt |}.

Definition strict : Library unit unit :=
  {| jsonUnmarshal := fun _ => inl (Errorf "unexpected end of JSON input");
     yamlUnmarshal := fun _ => inr [("env", AnyMap [(Scalar tt, Str "x")])];
     tomlUnmarshal := fun _ => inr [("app", Str "web")];
     applyPatches := fun _ => (None, Some (Errorf "unknown section"));
     jsonMarshal := fun _ => inl (Errorf "unsupported value");
     jsonMarshalIndent := fun _ => inl (Errorf "unsupported value");
     yamlMarshal := fun _ => inl (Errorf "unsupported value");
     tomlEncode := sampleTOML;
     zeroFields := tt |}.

Definition sampleDisk : Disk string :=
  {| IsPathSeparator := fun c => Ascii.eqb c "/";
     MkdirAll := fun _ => None;
     Create := fun _ => inr EmptyString;
     Close := fun _ => None |}.

Definition web : Config unit :=
  {| AppName := "web"; configFilePath := "fly.toml"; v2UnmarshalError := None; fields := tt |}.

End appconfig.

(** ** The [version] tool *)

Module version.

Definition stableChannelStillOnSemver : bool := true.

Section Tool.

(** Package [relmeta], as the tool uses it, with the JSON encoding of
    the release metadata and [String] of a version. *)
Variable Meta Version : Type.

Record Relmeta := {
  RefreshTags : string -> option error;
  GenerateReleaseMeta : string -> bool -> error + Meta;
  NextVersion : string -> bool -> error + Version;
  Marshal : Meta -> error + string;
  VersionString : Version -> string
}.

(** The calls into [relmeta], with their arguments. *)
Inductive call :=
| CallRefreshTags (gitDir : string)
| CallGenerateReleaseMeta (gitDir : string) (stableChannelStillOnSemver : bool)
| CallNextVersion (gitDir : string) (ignoreSemver : bool).

(** The two variables called [gitDir]: the one of the package (line 16)
    and the one [main] declares (line 20). *)
Record variables := {
  packageGitDir : string;
  mainGitDir : string
}.

(** What a command does: the error it returns, what standard output
    holds afterwards, and its calls into [relmeta]. *)
Record run := {
  returns : option error;
  stdout : string;
  calls : list call
}.

(** [runShow], lines 47-61.  [enc.Encode] writes the encoding and a
    newline, or nothing when the value cannot be encoded; its error is
    dropped. *)
Definition runShow (relmeta : Relmeta) (vars : variables) (out : string) : run :=
  match RefreshTags relmeta (packageGitDir vars) with
  | Some err =>
    {| returns := Some err; stdout := out;
       calls := [CallRefreshTags (packageGitDir vars)] |}
  | None =>
    match GenerateReleaseMeta relmeta (packageGitDir vars) stableChannelStillOnSemver with
    | inl err =>
      {| returns := Some err; stdout := out;
         calls := [CallRefreshTags (packageGitDir vars);
                   CallGenerateReleaseMeta (packageGitDir vars) stableChannelStillOnSemver] |}
    | inr meta =>
      {| returns := None;
         stdout := match Marshal relmeta meta with
                   | inr text => out ++ text ++ String (ascii_of_nat 10) EmptyString
                   | inl _ => out
                   end;
         calls := [CallRefreshTags (packageGitDir vars);
                   CallGenerateReleaseMeta (packageGitDir vars) stableChannelStillOnSemver] |}
    end
  end.

(** [runNext], lines 63-76. *)
Definition runNext (relmeta : Relmeta) (vars : variables) (out : string) : run :=
  match RefreshTags relmeta (packageGitDir vars) with
  | Some err =>
    {| returns := Some err; stdout := out;
       calls := [CallRefreshTags (packageGitDir vars)] |}
  | None =>
    match NextVersion relmeta (packageGitDir vars) false with
    | inl err =>
      {| returns := Some err; stdout := out;
         calls := [CallRefreshTags (packageGitDir vars);
                   CallNextVersion (packageGitDir vars) false] |}
    | inr ver =>
      {| returns := None;
         stdout := out ++ VersionString relmeta ver;
         calls := [CallRefreshTags (packageGitDir vars);
                   CallNextVersion (packageGitDir vars) false] |}
    end
  end.

Inductive subcommand := show | next.

(** [main] on a command line that names one of the two subcommands,
    with the value of [--git-dir] ([None] when the flag is absent).  The
    package variable has its zero value; the flag is bound to the
    variable of [main].  An error of the command makes [main] end in
    [log.Fatalln] with it. *)
Definition main (relmeta : Relmeta) (flag : option string) (cmd : subcommand)
           (out : string) : run :=
  let vars := {| packageGitDir := EmptyString;
                 mainGitDir := match flag with
                               | Some dir => dir
                               | None => EmptyString
                               end |} in
  match cmd with
  | show => runShow relmeta vars out
  | next => runNext relmeta vars out
  end.

End Tool.

Arguments RefreshTags {Meta Version}.
Arguments GenerateReleaseMeta {Meta Version}.
Arguments NextVersion {Meta Version}.
Arguments Marshal {Meta Version}.
Arguments VersionString {Meta Version}.
Arguments runShow {Meta Version}.
Arguments runNext {Meta Version}.
Arguments main {Meta Version}.

Definition callDir (c : call) : string :=
  match c with
  | CallRefreshTags dir => dir
  | CallGenerateReleaseMeta dir _ => dir
  | CallNextVersion dir _ => dir
  end.

End version.

(** ** Package [deploy]: deploying from a manifest *)

Module deploy.

Section Manifest.

(** Types of other packages that the manifest only carries. *)
Variable AppConfig float64 MachineGuest File : Type.

(** [DeployManifest], lines 20-52. *)
Record DeployManifest := {
  AppName : string;
  Config : option AppConfig;
  DeploymentImage : string;
  Strategy : string;
  EnvFromFlags : list string;
  PrimaryRegionFlag : string;
  SkipSmokeChecks : bool;
  SkipHealthChecks : bool;
  SkipDNSChecks : bool;
  SkipReleaseCommand : bool;
  MaxUnavailable : option float64;
  RestartOnly : bool;
  WaitTimeout : option Duration;
  StopSignal : string;
  LeaseTimeout : option Duration;
  ReleaseCmdTimeout : option Duration;
  Guest : option MachineGuest;
  IncreasedAvailability : bool;
  AllocPublicIP : bool;
  UpdateOnly : bool;
  Files : list File;
  ExcludeRegions : list (string * bool);
  OnlyRegions : list (string * bool);
  ExcludeMachines : list (string * bool);
  OnlyMachines : list (string * bool);
  ProcessGroups : list (string * bool);
  MaxConcurrent : Z;
  VolumeInitialSize : Z;
  RestartPolicy : option string;
  RestartMaxRetries : Z;
  DeployRetries : Z
}.

(** What [deployFromManifest] calls: the API client, the constructor of
    a machine deployment with the zero value of its arguments
    ([MachineDeploymentArgs{}]), and the deployment itself. *)
Variable App MachineDeploymentArgs MachineDeployment : Type.

Record Collaborators := {
  GetAppCompact : string -> error + App;
  zeroArgs : MachineDeploymentArgs;
  NewMachineDeployment : MachineDeploymentArgs -> error + MachineDeployment;
  DeployMachinesApp : MachineDeployment -> option error
}.

(** What a run leaves behind: the error returned, the arguments the
    deployment was built from, and the exceptions handed to sentry with
    the app. *)
Record deployRun := {
  result : option error;
  builtFrom : list MachineDeploymentArgs;
  captured : list (error * App)
}.

(** [deployFromManifest], lines 129-152. *)
Definition deployFromManifest (env : Collaborators) (manifest : DeployManifest) : deployRun :=
  match GetAppCompact env (AppName manifest) with
  | inl err => {| result := Some err; builtFrom := []; captured := [] |}
  | inr app =>
    let args := zeroArgs env in
    match NewMachineDeployment env args with
    | inl err => {| result := Some err; builtFrom := [args]; captured := [(err, app)] |}
    | inr md =>
      match DeployMachinesApp env md with
      | Some err => {| result := Some err; builtFrom := [args]; captured := [(err, app)] |}
      | None => {| result := None; builtFrom := [args]; captured := [] |}
      end
    end
  end.

End Manifest.

Arguments Build_DeployManifest {AppConfig float64 MachineGuest File}.
Arguments AppName {AppConfig float64 MachineGuest File}.
Arguments GetAppCompact {App MachineDeploymentArgs MachineDeployment}.
Arguments zeroArgs {App MachineDeploymentArgs MachineDeployment}.
Arguments NewMachineDeployment {App MachineDeploymentArgs MachineDeployment}.
Arguments DeployMachinesApp {App MachineDeploymentArgs MachineDeployment}.
Arguments result {App MachineDeploymentArgs}.
Arguments builtFrom {App MachineDeploymentArgs}.
Arguments captured {App MachineDeploymentArgs}.
Arguments deployFromManifest {AppConfig float64 MachineGuest File App MachineDeploymentArgs
                              MachineDeployment}.

(** A sample manifest for an app, with a strategy and an image. *)
Definition sampleManifest (app strategy image : string)
  : DeployManifest unit unit unit unit :=
  {| AppName := app; Config := None; DeploymentImage := image; Strategy := strategy;
     EnvFromFlags := []; PrimaryRegionFlag := EmptyString;
     SkipSmokeChecks := false; SkipHealthChecks := false; SkipDNSChecks := false;
     SkipReleaseCommand := false; MaxUnavailable := None; RestartOnly := false;
     WaitTimeout := Some (5 * Second)%Z; StopSignal := EmptyString;
     LeaseTimeout := None; ReleaseCmdTimeout := None; Guest := None;
     IncreasedAvailability := false; AllocPublicIP := false; UpdateOnly := false;
     Files := []; ExcludeRegions := []; OnlyRegions := []; ExcludeMachines := [];
     OnlyMachines := []; ProcessGroups := []; MaxConcurrent := 0%Z;
     VolumeInitialSize := 0%Z; RestartPolicy := None; RestartMaxRetries := 0%Z;
     DeployRetries := 0%Z |}.

(** Collaborators that know one app and accept every deployment. *)
Definition sampleCollaborators : Collaborators string (list string) unit :=
  {| GetAppCompact := fun name =>
       if String.eqb name "web" then inr "app-web" else inl (Errorf "app not found");
     zeroArgs := [];
     NewMachineDeployment := fun _ => inr tt;
     DeployMachinesApp := fun _ => None |}.


End deploy.

(** ** Package [registry]: the [sbom] command *)

Module registry.

(** [http.StatusOK]. *)
Definition StatusOK : Z := 200%Z.

(** The response of the SBOM request, as [runSbom] reads it. *)
Record Response := {
  StatusCode : Z;
  Body : string
}.

Section Sbom.

(** The app as the API returns it, with the two ids [runSbom] reads from
    it, and the output stream. *)
Variable App Out : Type.

Record Collaborators := {
  GetAppCompact : string -> error + App;
  appID : App -> string;
  organizationID : App -> string;
  argsGetImgPath : App -> error + string;
  makeScantronToken : string -> string -> error + string;
  scantronSbomReq : string -> string -> error + Response;
  Copy : Out -> string -> option error * Out
}.

(** What a run leaves behind: the error returned, the output stream, and
    whether a response body was obtained and closed. *)
Record sbomRun := {
  failure : option error;
  out : Out;
  bodyClosed : bool
}.

(** [runSbom], lines 55-91. *)
Definition runSbom (env : Collaborators) (appName : string) (ios : Out) : sbomRun :=
  match GetAppCompact env appName with
  | inl err =>
    {| failure := Some (ErrorfWrap ("failed to get app: " ++ Error err) err);
       out := ios; bodyClosed := false |}
  | inr app =>
    match argsGetImgPath env app with
    | inl err => {| failure := Some err; out := ios; bodyClosed := false |}
    | inr imgPath =>
      match makeScantronToken env (organizationID env app) (appID env app) with
      | inl err => {| failure := Some err; out := ios; bodyClosed := false |}
      | inr token =>
        match scantronSbomReq env imgPath token with
        | inl err => {| failure := Some err; out := ios; bodyClosed := false |}
        | inr res =>
          if negb (StatusCode res =? StatusOK)%Z then
            {| failure := Some (Errorf ("failed fetching SBOM (status code "
                                            ++ appconfig.itoa (StatusCode res) ++ ")"));
               out := ios; bodyClosed := true |}
          else
            match Copy env ios (Body res) with
            | (Some err, ios') =>
              {| failure := Some (ErrorfWrap ("failed to read SBOM: " ++ Error err) err);
                 out := ios'; bodyClosed := true |}
            | (None, ios') => {| failure := None; out := ios'; bodyClosed := true |}
            end
        end
      end
    end
  end.

End Sbom.

Arguments GetAppCompact {App Out}.
Arguments appID {App Out}.
Arguments organizationID {App Out}.
Arguments argsGetImgPath {App Out}.
Arguments makeScantronToken {App Out}.
Arguments scantronSbomReq {App Out}.
Arguments Copy {App Out}.
Arguments failure {Out}.
Arguments out {Out}.
Arguments bodyClosed {Out}.
Arguments runSbom {App Out}.

End registry.

(** * Facts about [WaitForStartOrStop] *)

Lemma HasPrefix_app (s t : string) : HasPrefix (s ++ t) s = true.
Proof.
  induction s as [|c s IH]; simpl.
  - now destruct t.
  - now rewrite Ascii.eqb_refl, IH.
Qed.

Lemma Contains_here (s t : string) : Contains (s ++ t) s = true.
Proof.
  destruct s; simpl.
  - destruct t; reflexivity.
  - now rewrite Ascii.eqb_refl, HasPrefix_app.
Qed.

Lemma Contains_app_r (p t s : string) :
  Contains t s = true -> Contains (p ++ t) s = true.
Proof.
  intros H. induction p as [|c p IH]; simpl; [exact H|].
  rewrite IH. apply orb_true_r.
Qed.

Lemma Contains_inside (p s t : string) : Contains (p ++ s ++ t) s = true.
Proof. apply Contains_app_r, Contains_here. Qed.

Section WaiterFacts.

Variable No : string.
Variable machine : Machine.
Variable timeout : Duration.
Variable w : string.

(** Retried iterations only add their queries and sleeps in front and
    advance the policy. *)
Lemma waitLoop_retried (errs : list error) (rest : list answer) :
  Forall (fun e => onError No machine timeout w e ctxLive = Retry) errs ->
  forall b,
    waitLoop No machine timeout w b (failing errs ++ rest)%list =
    (fst (waitLoop No machine timeout w
            {| backoff.Min := backoff.Min b; backoff.Max := backoff.Max b;
               backoff.Factor := backoff.Factor b; backoff.Jitter := backoff.Jitter b;
               backoff.attempt := backoff.attempt b + List.length errs |} rest),
     (retried w b (List.length errs)
        ++ snd (waitLoop No machine timeout w
            {| backoff.Min := backoff.Min b; backoff.Max := backoff.Max b;
               backoff.Factor := backoff.Factor b; backoff.Jitter := backoff.Jitter b;
               backoff.attempt := backoff.attempt b + List.length errs |} rest))%list).
Proof.
  induction 1 as [|e errs He _ IH]; intros b.
  - simpl. rewrite Nat.add_0_r. destruct b; simpl.
    now destruct (waitLoop _ _ _ _ _ rest).
  - cbn [failing map app waitLoop List.length retried].
    rewrite He.
    cbn [backoff.Duration fst snd].
    fold (failing errs). rewrite IH. unfold after.
    cbn [backoff.Min backoff.Max backoff.Factor backoff.Jitter backoff.attempt
         fst snd app].
    replace (S (backoff.attempt b) + List.length errs)
      with (backoff.attempt b + S (List.length errs)) by lia.
    reflexivity.
Qed.

Lemma sleeps_retried (b : backoff.Backoff) (K : nat) (t : list effect) :
  sleeps (retried w b K ++ t)%list =
  (map (fun k => backoff.ForAttempt b (backoff.attempt b + k)) (seq 0 K) ++ sleeps t)%list.
Proof.
  revert b. induction K as [|K IH]; intros b; [reflexivity|].
  cbn [retried app sleeps seq map backoff.Duration fst snd].
  rewrite IH, Nat.add_0_r. f_equal.
  rewrite <- seq_shift, map_map. cbn [backoff.attempt].
  f_equal. apply map_ext. intros k.
  unfold backoff.ForAttempt.
  cbn [backoff.Min backoff.Max backoff.Factor backoff.attempt].
  now replace (S (backoff.attempt b) + k) with (backoff.attempt b + S k) by lia.
Qed.

Lemma waits_retried (b : backoff.Backoff) (K : nat) (t : list effect) :
  waits (retried w b K ++ t)%list = K + waits t.
Proof.
  revert b. induction K as [|K IH]; intros b; [reflexivity|].
  cbn [retried app waits]. now rewrite IH.
Qed.

End WaiterFacts.

(** Which failed queries the [default] case retries: those that are not
    the restart-policy failure and not a bad request. *)
Lemma onPayload_Retry (No : string) (machine : Machine) (err : error) :
  onPayload No machine err = Retry <->
  (Contains (Error err) "machine failed to reach desired state" = false \/
   exists config, Config machine = Some config /\
     match Restart config with
     | Some restart => Policy restart <> No
     | None => True
     end) /\
  AsFlapsError err <> Some StatusBadRequest.
Proof.
  unfold onPayload.
  assert (B : match AsFlapsError err with
              | Some code =>
                if (code =? StatusBadRequest)%Z then
                  Stop (Returned (Some (ErrorfWrap ("failed waiting for machine: " ++ Error err) err)))
                else Retry
              | None => Retry
              end = Retry <-> AsFlapsError err <> Some StatusBadRequest).
  { destruct (AsFlapsError err) as [code|]; [|split; congruence].
    destruct (Z.eqb_spec code StatusBadRequest); split; congruence. }
  destruct (Contains (Error err) _).
  - destruct (Config machine) as [config|].
    + destruct (Restart config) as [restart|] eqn:R.
      * destruct (String.eqb_spec (Policy restart) No) as [E|E].
        -- split; [discriminate|]. intros [[?|(c & [= <-] & H)] _]; [discriminate|].
           rewrite R in H. contradiction.
        -- rewrite B. split; [|tauto]. intros H. split; [|exact H].
           right. exists config. now rewrite R.
      * rewrite B. split; [|tauto]. intros H. split; [|exact H].
        right. exists config. now rewrite R.
    + split; [discriminate|]. intros [[?|(c & ? & _)] _]; discriminate.
  - rewrite B. tauto.
Qed.

Lemma newBackoff_ForAttempt (k : nat) :
  backoff.ForAttempt newBackoff k =
  Z.min (500 * Millisecond * 2 ^ Z.of_nat k) (2 * Second).
Proof.
  unfold backoff.ForAttempt, newBackoff; cbn [backoff.Min backoff.Max backoff.Factor].
  pose proof (Z.pow_pos_nonneg 2 (Z.of_nat k)) as P.
  unfold Second, Millisecond in *. lia.
Qed.

Lemma backoff_delay_mono (i j : nat) :
  i <= j ->
  (Z.min (500 * Millisecond * 2 ^ Z.of_nat i) (2 * Second)
   <= Z.min (500 * Millisecond * 2 ^ Z.of_nat j) (2 * Second))%Z.
Proof.
  intros H.
  assert (2 ^ Z.of_nat i <= 2 ^ Z.of_nat j)%Z by (apply Z.pow_le_mono_r; lia).
  unfold Second, Millisecond. lia.
Qed.

(** C4: an action that is neither [start] nor [stop] makes
    [WaitForStartOrStop] return [invalidAction] with an empty trace: no
    query is issued, whatever the flaps client would have answered. *)
Theorem WaitForStartOrStop_invalid_action
        (No : string) (machine : Machine) (action : string) (timeout : Duration)
        (answers : list answer) :
  action <> "start" -> action <> "stop" ->
  WaitForStartOrStop No machine action timeout answers
  = (Returned (Some invalidAction), []).
Proof.
  intros H1 H2. unfold WaitForStartOrStop, waitOn.
  destruct (String.eqb_spec action "start"); [contradiction|].
  destruct (String.eqb_spec action "stop"); [contradiction|].
  reflexivity.
Qed.

Lemma WaitForStartOrStop_invalid_action_witness :
  WaitForStartOrStop "no" m1 "restart" (5 * Second)%Z [(None, ctxLive)]
  = (Returned (Some invalidAction), []).
Proof.
  apply (WaitForStartOrStop_invalid_action "no" m1 "restart"); discriminate.
Defined.

(** C5: when the query fails [K] times with errors the loop retries and
    then succeeds, [WaitForStartOrStop] returns nil after [K + 1]
    queries, and the sleep after the failure number [k] (from 0) is
    [min (500ms * 2^k) 2s]: the delays never decrease and never exceed
    two seconds. *)
Theorem WaitForStartOrStop_backoff_delays
        (No : string) (machine : Machine) (action w : string) (timeout : Duration)
        (errs : list error) (c : ctxErr) :
  waitOn action = Some w ->
  Forall (fun e => onError No machine timeout w e ctxLive = Retry) errs ->
  fst (WaitForStartOrStop No machine action timeout (failing errs ++ [(None, c)])%list)
    = Returned None /\
  waits (snd (WaitForStartOrStop No machine action timeout
                (failing errs ++ [(None, c)])%list)) = S (List.length errs) /\
  sleeps (snd (WaitForStartOrStop No machine action timeout
                 (failing errs ++ [(None, c)])%list))
    = map (fun k => Z.min (500 * Millisecond * 2 ^ Z.of_nat k) (2 * Second))
          (seq 0 (List.length errs)) /\
  forall i j, i <= j < List.length errs ->
    (nth i (sleeps (snd (WaitForStartOrStop No machine action timeout
                           (failing errs ++ [(None, c)])%list))) 0
     <= nth j (sleeps (snd (WaitForStartOrStop No machine action timeout
                              (failing errs ++ [(None, c)])%list))) 0
     <= 2 * Second)%Z.
Proof.
  intros Hw Hr. unfold WaitForStartOrStop. rewrite Hw.
  rewrite (waitLoop_retried No machine timeout w errs [(None, c)] Hr newBackoff).
  cbn [waitLoop after fst snd].
  rewrite waits_retried, sleeps_retried. cbn [waits sleeps].
  rewrite app_nil_r.
  assert (E : map (fun k => backoff.ForAttempt newBackoff (backoff.attempt newBackoff + k))
                  (seq 0 (List.length errs))
              = map (fun k => Z.min (500 * Millisecond * 2 ^ Z.of_nat k) (2 * Second))
                    (seq 0 (List.length errs))).
  { apply map_ext. intros k. apply newBackoff_ForAttempt. }
  rewrite E. repeat split; try lia.
  - pose (f := fun k => Z.min (500 * Millisecond * 2 ^ Z.of_nat k) (2 * Second)).
    fold f. rewrite (nth_indep _ 0%Z (f 0)), (nth_indep _ 0%Z (f 0) (n := j));
      try (rewrite length_map, length_seq; lia).
    rewrite !map_nth, !seq_nth by lia. apply backoff_delay_mono. lia.
  - pose (f := fun k => Z.min (500 * Millisecond * 2 ^ Z.of_nat k) (2 * Second)).
    fold f. rewrite (nth_indep _ 0%Z (f 0)) by (rewrite length_map, length_seq; lia).
    rewrite map_nth. unfold f. lia.
Qed.

Lemma WaitForStartOrStop_backoff_delays_witness :
  sleeps (snd (WaitForStartOrStop "no" m1 "start" (5 * Second)%Z
                 (failing [e1; e1; e1; e1] ++ [(None, ctxLive)])%list))
  = [500 * Millisecond; 1 * Second; 2 * Second; 2 * Second]%Z.
Proof.
  assert (Hw : waitOn "start" = Some "started") by reflexivity.
  assert (Hr : Forall (fun e => onError "no" m1 (5 * Second)%Z "started" e ctxLive = Retry)
                      [e1; e1; e1; e1])
    by (repeat constructor).
  exact (proj1 (proj2 (proj2
    (WaitForStartOrStop_backoff_delays "no" m1 "start" "started" (5 * Second)%Z
       [e1; e1; e1; e1] ctxLive Hw Hr)))).
Defined.

(** C6: when the deadline has not fired and the first query fails with a
    text that contains "machine failed to reach desired state" while
    the machine's restart policy is [MachineRestartPolicyNo], the call
    returns an error at once: its trace is that one query, without a
    sleep.  With a live context the error is the restart-policy failure;
    under a cancelled context it is the query's own error. *)
Theorem WaitForStartOrStop_restart_policy_no
        (No : string) (machine : Machine) (action w : string) (timeout : Duration)
        (err : error) (cerr : ctxErr) (config : MachineConfig) (restart : MachineRestart)
        (answers : list answer) :
  waitOn action = Some w ->
  cerr <> DeadlineExceeded ->
  Contains (Error err) "machine failed to reach desired state" = true ->
  Config machine = Some config ->
  Restart config = Some restart ->
  Policy restart = No ->
  exists e,
    WaitForStartOrStop No machine action timeout ((Some err, cerr) :: answers)
    = (Returned (Some e), [Wait w (60 * Second)%Z]) /\
    (cerr = ctxLive ->
     e = Errorf ("machine failed to reach desired start state, and restart policy was set to "
                   ++ No ++ " restart")) /\
    (cerr = Canceled -> e = err).
Proof.
  intros Hw Hd Hc Hconfig Hrestart Hpolicy.
  unfold WaitForStartOrStop. rewrite Hw. cbn [waitLoop].
  destruct cerr; [| |contradiction]; cbn [onError].
  - unfold onPayload. rewrite Hc, Hconfig, Hrestart, Hpolicy, String.eqb_refl.
    eexists. split; [reflexivity|]. split; [reflexivity|discriminate].
  - eexists. split; [reflexivity|]. split; [discriminate|reflexivity].
Qed.

Lemma WaitForStartOrStop_restart_policy_no_witness :
  exists e,
    WaitForStartOrStop "no" m1 "start" (5 * Second)%Z [(Some e2, ctxLive); (None, ctxLive)]
    = (Returned (Some e), [Wait "started" (60 * Second)%Z]) /\
    (ctxLive = ctxLive ->
     e = Errorf ("machine failed to reach desired start state, and restart policy was set to "
                   ++ "no" ++ " restart")) /\
    (ctxLive = Canceled -> e = e2).
Proof.
  apply (WaitForStartOrStop_restart_policy_no "no" m1 "start" "started" (5 * Second)%Z
           e2 ctxLive {| Restart := Some {| Policy := "no" |} |} {| Policy := "no" |});
    try reflexivity; discriminate.
Defined.

(** C7: when a query fails and the context of the wait has exceeded its
    deadline, [WaitForStartOrStop] returns a [WaitTimeoutErr] whose
    fields are the machine's id, the timeout of the call and the state
    waited for, and the text of its [Description] contains the id, the
    printed timeout and the state. *)
Theorem WaitForStartOrStop_timeout
        (No : string) (DurationString : Duration -> string)
        (machine : Machine) (action w : string) (limit : Duration)
        (errs : list error) (err : error) (answers : list answer) :
  waitOn action = Some w ->
  Forall (fun e => onError No machine limit w e ctxLive = Retry) errs ->
  exists e,
    fst (WaitForStartOrStop No machine action limit
           (failing errs ++ (Some err, DeadlineExceeded) :: answers)%list)
    = Returned (Some (TimeoutErr e)) /\
    machineID e = ID machine /\
    timeout e = limit /\
    DesiredState e = w /\
    Contains (Description DurationString e) (ID machine) = true /\
    Contains (Description DurationString e) (DurationString limit) = true /\
    Contains (Description DurationString e) w = true.
Proof.
  intros Hw Hr. unfold WaitForStartOrStop. rewrite Hw.
  rewrite (waitLoop_retried No machine limit w errs _ Hr newBackoff).
  cbn [waitLoop onError after fst snd].
  eexists. split; [reflexivity|].
  unfold Description, DesiredState; cbn [machineID timeout desiredState].
  repeat split.
  - apply Contains_inside.
  - apply Contains_app_r, Contains_app_r, Contains_inside.
  - do 6 apply Contains_app_r. apply Contains_here.
Qed.

Lemma WaitForStartOrStop_timeout_witness :
  exists e,
    fst (WaitForStartOrStop "no" m1 "stop" (5 * Second)%Z
           (failing [e1; e1] ++ [(Some e1, DeadlineExceeded)])%list)
    = Returned (Some (TimeoutErr e)) /\
    machineID e = "m1" /\
    timeout e = (5 * Second)%Z /\
    DesiredState e = "stopped" /\
    Contains (Description (fun _ => "5s") e) "m1" = true /\
    Contains (Description (fun _ => "5s") e) "5s" = true /\
    Contains (Description (fun _ => "5s") e) "stopped" = true.
Proof.
  apply (WaitForStartOrStop_timeout "no" (fun _ => "5s") m1 "stop" "stopped" (5 * Second)%Z
           [e1; e1] e1 []); [reflexivity|repeat constructor].
Defined.

(** C10: the state of the context is looked at before the error itself.
    Whatever the failed query returned (the restart-policy failure and a
    bad request included), a cancelled context makes the call return
    that error unchanged and an expired one makes it return the
    [WaitTimeoutErr]. *)
Theorem WaitForStartOrStop_context_first
        (No : string) (machine : Machine) (action w : string) (timeout : Duration)
        (errs : list error) (err : error) (cerr : ctxErr) (answers : list answer) :
  waitOn action = Some w ->
  Forall (fun e => onError No machine timeout w e ctxLive = Retry) errs ->
  (cerr = Canceled ->
   fst (WaitForStartOrStop No machine action timeout
          (failing errs ++ (Some err, cerr) :: answers)%list)
   = Returned (Some err)) /\
  (cerr = DeadlineExceeded ->
   fst (WaitForStartOrStop No machine action timeout
          (failing errs ++ (Some err, cerr) :: answers)%list)
   = Returned (Some (TimeoutErr {| machineID := ID machine;
                                   timeout := timeout;
                                   desiredState := w |}))).
Proof.
  intros Hw Hr. unfold WaitForStartOrStop. rewrite Hw.
  rewrite (waitLoop_retried No machine timeout w errs _ Hr newBackoff).
  split; intros ->; reflexivity.
Qed.

Lemma WaitForStartOrStop_context_first_witness :
  onPayload "no" m1 e2
  = Stop (Returned (Some (Errorf
      "machine failed to reach desired start state, and restart policy was set to no restart")))
  /\ onPayload "no" {| ID := "m2"; Config := None |} (ClientErr "bad request" (Some 400%Z))
  = Stop (Returned (Some (ErrorfWrap "failed waiting for machine: bad request"
                                     (ClientErr "bad request" (Some 400%Z)))))
  /\ fst (WaitForStartOrStop "no" m1 "start" (5 * Second)%Z
            (failing [e1] ++ [(Some e2, Canceled)])%list)
     = Returned (Some e2)
  /\ fst (WaitForStartOrStop "no" {| ID := "m2"; Config := None |} "stop" (5 * Second)%Z
            (failing [] ++ [(Some (ClientErr "bad request" (Some 400%Z)), DeadlineExceeded)])%list)
     = Returned (Some (TimeoutErr {| machineID := "m2";
                                     timeout := (5 * Second)%Z;
                                     desiredState := "stopped" |})).
Proof.
  split; [reflexivity|]. split; [reflexivity|]. split.
  - apply (proj1 (WaitForStartOrStop_context_first "no" m1 "start" "started" (5 * Second)%Z
                    [e1] e2 Canceled [] eq_refl ltac:(repeat constructor))).
    reflexivity.
  - apply (proj2 (WaitForStartOrStop_context_first "no" {| ID := "m2"; Config := None |}
                    "stop" "stopped" (5 * Second)%Z
                    [] (ClientErr "bad request" (Some 400%Z)) DeadlineExceeded []
                    eq_refl ltac:(constructor))).
    reflexivity.
Defined.

(** * Facts about [WaitForAnyMachineState] *)

Section RaceFacts.

Context {UI Status : Type}.
Variable StatusRunning : Status.
Variable mach : Machine.
Variable possibleStates : list string.
Variable results : nat -> option error.

Lemma watcher_update (sl : option (@StatusLine UI Status)) (state : string)
      (err : option error) (s : shared) (ui : UI) :
  fst (watcher StatusRunning sl mach state err s ui) = update state err s.
Proof.
  unfold watcher, update.
  destruct (negb (String.eqb (successfulState s) EmptyString)); [reflexivity|].
  destruct err; reflexivity.
Qed.

(** The status line never reaches the value the coordinator returns. *)
Lemma race_coordinator (sl : option (@StatusLine UI Status)) (sched : list event) :
  forall s ui,
    fst (race StatusRunning sl mach possibleStates results sched s ui)
    = coordinator possibleStates results sched s.
Proof.
  induction sched as [|[i|] sched IH]; intros s ui; cbn [race coordinator].
  - reflexivity.
  - destruct (nth_error possibleStates i) as [state|]; [|apply IH].
    rewrite <- (watcher_update sl state (results i) s ui).
    destruct (watcher StatusRunning sl mach state (results i) s ui) as [s' ui'].
    apply IH.
  - destruct (poll possibleStates s); [reflexivity|apply IH].
Qed.

Lemma update_numCompleted (state : string) (err : option error) (s : shared) :
  numCompleted (update state err s) = numCompleted s + 1.
Proof.
  unfold update.
  destruct (negb (String.eqb (successfulState s) EmptyString)); [reflexivity|].
  destruct err; reflexivity.
Qed.

(** Once a winner is recorded a critical section leaves the winner
    and the error alone. *)
Lemma update_stable (state : string) (err : option error) (s : shared) :
  successfulState s <> EmptyString ->
  successfulState (update state err s) = successfulState s /\
  waitErr (update state err s) = waitErr s.
Proof.
  intros H. unfold update.
  destruct (String.eqb_spec (successfulState s) EmptyString); [contradiction|].
  split; reflexivity.
Qed.

Lemma settle_stable (fs : list nat) :
  forall s,
    successfulState s <> EmptyString ->
    successfulState (settle possibleStates results fs s) = successfulState s /\
    waitErr (settle possibleStates results fs s) = waitErr s.
Proof.
  induction fs as [|i fs IH]; intros s H; cbn [settle]; [split; reflexivity|].
  destruct (nth_error possibleStates i) as [state|]; [|now apply IH].
  destruct (update_stable state (results i) s H) as [E1 E2].
  destruct (IH (update state (results i) s)) as [F1 F2]; [congruence|].
  split; congruence.
Qed.

Lemma settle_app (fs gs : list nat) (s : shared) :
  settle possibleStates results (fs ++ gs) s
  = settle possibleStates results gs (settle possibleStates results fs s).
Proof.
  revert s. induction fs as [|i fs IH]; intros s; cbn [app settle]; [reflexivity|].
  destruct (nth_error possibleStates i); apply IH.
Qed.

(** A schedule in which the goroutines still to finish are exactly
    those the count is short of, and which ends with a round of the
    coordinator, makes the coordinator return what the shared
    variables hold after the last goroutine. *)
Lemma coordinator_returns (sched : list event) :
  forall s,
    numCompleted s + List.length (finishes sched) = List.length possibleStates ->
    Forall (fun i => i < List.length possibleStates) (finishes sched) ->
    (exists sched', sched = (sched' ++ [Poll])%list) ->
    coordinator possibleStates results sched s
    = Some (successfulState (settle possibleStates results (finishes sched) s),
            waitErr (settle possibleStates results (finishes sched) s)).
Proof.
  induction sched as [|[i|] sched IH]; intros s Hn Hv [pre Hp].
  - now destruct pre.
  - cbn [finishes List.length] in Hn. cbn [finishes] in Hv.
    apply Forall_cons_iff in Hv as [Hi Hv].
    cbn [coordinator finishes settle].
    destruct (nth_error possibleStates i) as [state|] eqn:E.
    + apply IH.
      * rewrite update_numCompleted. lia.
      * exact Hv.
      * destruct pre as [|e pre]; [discriminate|]. injection Hp as _ ->. now exists pre.
    + apply nth_error_None in E. lia.
  - cbn [finishes] in Hn, Hv. cbn [coordinator finishes]. unfold poll.
    destruct (String.eqb_spec (successfulState s) EmptyString) as [Es|Es]; cbn [negb orb].
    + destruct (Nat.eqb_spec (numCompleted s) (List.length possibleStates)) as [En|En].
      * assert (finishes sched = []) as -> by (apply length_zero_iff_nil; lia).
        reflexivity.
      * apply IH; [exact Hn|exact Hv|].
        destruct pre as [|e pre].
        -- injection Hp as ->. cbn in Hn. lia.
        -- injection Hp as _ ->. now exists pre.
    + destruct (settle_stable (finishes sched) s Es) as [-> ->]. reflexivity.
Qed.

Lemma fair_finishes (sched : list event) :
  fair (List.length possibleStates) sched ->
  List.length (finishes sched) = List.length possibleStates /\
  Forall (fun i => i < List.length possibleStates) (finishes sched) /\
  NoDup (finishes sched) /\
  (forall i, i < List.length possibleStates -> In i (finishes sched)).
Proof.
  intros [P _]. repeat split.
  - rewrite (Permutation_length P). apply length_seq.
  - apply Forall_forall. intros i Hi.
    apply (Permutation_in _ P), in_seq in Hi. lia.
  - apply (Permutation_NoDup (Permutation_sym P)), seq_NoDup.
  - intros i Hi. apply (Permutation_in _ (Permutation_sym P)), in_seq. lia.
Qed.

(** Under a fair schedule the call returns, and it returns the winner
    and the error as they stand when every goroutine is done. *)
Lemma WaitForAnyMachineState_returns (timeout : Duration)
      (sl : option (@StatusLine UI Status)) (sched : list event) (ui : UI) :
  fair (List.length possibleStates) sched ->
  returned (WaitForAnyMachineState StatusRunning mach possibleStates timeout sl
                                   results sched ui)
  = Some (successfulState (settle possibleStates results (finishes sched) start),
          waitErr (settle possibleStates results (finishes sched) start)).
Proof.
  intros F. destruct (fair_finishes sched F) as (L & V & _ & _).
  unfold WaitForAnyMachineState. cbn [returned]. rewrite race_coordinator.
  apply coordinator_returns; [cbn; lia|exact V|apply F].
Qed.

End RaceFacts.

Section RaceOutcomes.

Variable possibleStates : list string.
Variable results : nat -> option error.

(** While only failing goroutines finish no winner appears and the
    error is that of the last one. *)
Lemma settle_all_fail (fs : list nat) :
  forall s,
    Forall (fun i => i < List.length possibleStates /\ results i <> None) fs ->
    successfulState s = EmptyString ->
    successfulState (settle possibleStates results fs s) = EmptyString /\
    waitErr (settle possibleStates results fs s)
    = match fs with [] => waitErr s | _ => results (last fs 0) end.
Proof.
  induction fs as [|i fs IH]; intros s Hf Hs; cbn [settle]; [now split|].
  apply Forall_cons_iff in Hf as [[Hi Hr] Hf].
  destruct (nth_error possibleStates i) as [state|] eqn:E;
    [|apply nth_error_None in E; lia].
  destruct (results i) as [e|] eqn:R; [clear Hr|contradiction].
  assert (U : update state (Some e) s
              = {| waitErr := Some e; numCompleted := numCompleted s + 1;
                   successfulState := successfulState s |}).
  { unfold update. now rewrite Hs. }
  destruct (IH (update state (Some e) s) Hf) as [I1 I2].
  { rewrite U. exact Hs. }
  split; [exact I1|]. rewrite I2, U. cbn [waitErr].
  destruct fs; [now rewrite <- R|reflexivity].
Qed.

(** The first goroutine to succeed, when its state is not the empty
    string, is the winner for good; the error is what was recorded
    before it. *)
Lemma settle_winner (before after : list nat) (w : nat) (st : string) (s : shared) :
  Forall (fun i => i < List.length possibleStates /\ results i <> None) before ->
  successfulState s = EmptyString ->
  nth_error possibleStates w = Some st ->
  results w = None ->
  successfulState (settle possibleStates results (before ++ [w]) s) = st /\
  (st <> EmptyString ->
   successfulState (settle possibleStates results (before ++ w :: after) s) = st /\
   waitErr (settle possibleStates results (before ++ w :: after) s)
   = waitErr (settle possibleStates results before s)).
Proof.
  intros Hf Hs Hw Hr.
  destruct (settle_all_fail before s Hf Hs) as [B _].
  assert (U : update st None (settle possibleStates results before s)
              = {| waitErr := waitErr (settle possibleStates results before s);
                   numCompleted := numCompleted (settle possibleStates results before s) + 1;
                   successfulState := st |}).
  { unfold update. now rewrite B. }
  split.
  - rewrite settle_app. cbn [settle]. now rewrite Hw, Hr, U.
  - intros Hst. rewrite settle_app. cbn [settle]. rewrite Hw, Hr, U.
    match goal with |- context [settle _ _ after ?X] =>
      destruct (settle_stable possibleStates results after X) as [-> ->]
    end; [exact Hst|split; reflexivity].
Qed.

(** A recorded winner is the state of a goroutine that finished with
    success. *)
Lemma settle_origin (fs : list nat) :
  forall s,
    successfulState s = EmptyString ->
    successfulState (settle possibleStates results fs s) = EmptyString \/
    exists k, In k fs /\ results k = None /\
              nth_error possibleStates k
              = Some (successfulState (settle possibleStates results fs s)).
Proof.
  induction fs as [|i fs IH]; intros s Hs; cbn [settle]; [now left|].
  destruct (nth_error possibleStates i) as [state|] eqn:E.
  - destruct (String.eqb_spec (successfulState (update state (results i) s)) EmptyString)
      as [Eu|Eu].
    + destruct (IH _ Eu) as [H|(k & Hk & Hr & Hn)]; [now left|].
      right. exists k. auto using in_cons.
    + right. exists i.
      destruct (settle_stable possibleStates results fs _ Eu) as [-> _].
      unfold update in *. rewrite Hs in *. cbn [negb] in *.
      destruct (results i); cbn in *; [contradiction|].
      repeat split; auto using in_eq.
  - destruct (IH s Hs) as [H|(k & Hk & Hr & Hn)]; [now left|].
    right. exists k. auto using in_cons.
Qed.

(** When no winner is recorded at the end, every goroutine that
    succeeded was waiting for the empty string. *)
Lemma settle_no_winner (fs : list nat) :
  forall s k st,
    successfulState (settle possibleStates results fs s) = EmptyString ->
    successfulState s = EmptyString ->
    In k fs -> results k = None -> nth_error possibleStates k = Some st ->
    st = EmptyString.
Proof.
  induction fs as [|i fs IH]; intros s k st He Hs Hk Hr Hn; [contradiction|].
  cbn [settle] in He.
  destruct (nth_error possibleStates i) as [state|] eqn:E.
  - destruct (String.eqb_spec (successfulState (update state (results i) s)) EmptyString)
      as [Eu|Eu].
    + destruct Hk as [->|Hk]; [|exact (IH _ k st He Eu Hk Hr Hn)].
      unfold update in Eu. rewrite Hs, Hr in Eu. cbn in Eu. congruence.
    + destruct (settle_stable possibleStates results fs _ Eu) as [F _]. congruence.
  - destruct Hk as [->|Hk]; [congruence|exact (IH s k st He Hs Hk Hr Hn)].
Qed.

End RaceOutcomes.

Lemma fair_startedFirst : fair 2 startedFirst.
Proof.
  split; [apply Permutation_refl|].
  now exists [Poll; Finish 0; Poll; Finish 1].
Qed.

Lemma fair_stoppedFirst : fair 2 stoppedFirst.
Proof.
  split; [apply perm_swap|].
  now exists [Poll; Finish 1; Poll; Finish 0].
Qed.

(** C1, as amended: when exactly one goroutine's query succeeds, for a
    state that is not the empty string, and every other query fails,
    every fair schedule makes [WaitForAnyMachineState] return that
    state; when the succeeding goroutine is the first to finish, the
    errors of the others are dropped and the error returned is nil. *)
Theorem WaitForAny_one_winner
        {UI Status : Type} (StatusRunning : Status) (mach : Machine)
        (possibleStates : list string) (timeout : Duration)
        (sl : option (@StatusLine UI Status)) (results : nat -> option error)
        (sched : list event) (ui : UI) (w : nat) (st : string) :
  nth_error possibleStates w = Some st ->
  st <> EmptyString ->
  results w = None ->
  (forall i, i < List.length possibleStates -> i <> w -> results i <> None) ->
  fair (List.length possibleStates) sched ->
  exists err,
    returned (WaitForAnyMachineState StatusRunning mach possibleStates timeout sl
                                     results sched ui) = Some (st, err) /\
    (hd_error (finishes sched) = Some w -> err = None).
Proof.
  intros Hw Hst Hr Hl F.
  rewrite (WaitForAnyMachineState_returns StatusRunning mach possibleStates results
             timeout sl sched ui F).
  destruct (fair_finishes possibleStates sched F) as (_ & V & D & A).
  assert (Wl : w < List.length possibleStates)
    by (apply nth_error_Some; congruence).
  destruct (in_split _ _ (A w Wl)) as (before & after & E).
  rewrite E in *.
  assert (Hb : Forall (fun i => i < List.length possibleStates /\ results i <> None) before).
  { apply Forall_forall. intros i Hi. rewrite Forall_forall in V.
    assert (i < List.length possibleStates) by (apply V, in_or_app; now left).
    split; [assumption|]. apply Hl; [assumption|].
    intros ->. apply NoDup_remove_2 in D. apply D, in_or_app. now left. }
  destruct (settle_winner possibleStates results before after w st start Hb eq_refl Hw Hr)
    as [_ S].
  destruct (S Hst) as [-> ->].
  eexists. split; [reflexivity|].
  destruct before as [|i before]; [reflexivity|].
  cbn [app hd_error]. intros [= ->].
  apply NoDup_remove_2 in D. exfalso. apply D. now left.
Qed.

Lemma WaitForAny_one_winner_witness :
  exists err,
    returned (WaitForAnyMachineState tt m1 startedOrStopped (5 * Second)%Z (Some keep)
                                     onlySecond stoppedFirst [])
    = Some ("stopped", err) /\
    (hd_error (finishes stoppedFirst) = Some 1 -> err = None).
Proof.
  apply (WaitForAny_one_winner tt m1 startedOrStopped (5 * Second)%Z (Some keep)
           onlySecond stoppedFirst [] 1 "stopped").
  - reflexivity.
  - discriminate.
  - reflexivity.
  - intros [|[|i]] Hi Hn; cbn in *; [discriminate|contradiction|lia].
  - exact fair_stoppedFirst.
Defined.

(** C1 as stated fails in two ways.  A goroutine that fails before the
    succeeding one finishes leaves its error in [waitErr], and the call
    returns the winner together with that error.  And a goroutine that
    succeeds for the empty string records no winner, so the error of
    the other one is returned. *)
Lemma WaitForAny_one_winner_with_error :
  (fair (List.length startedOrStopped) startedFirst /\
   onlySecond 1 = None /\
   (forall i, i < List.length startedOrStopped -> i <> 1 -> onlySecond i <> None) /\
   returned (WaitForAnyMachineState tt m1 startedOrStopped (5 * Second)%Z
               (@None (@StatusLine unit unit)) onlySecond startedFirst tt)
   = Some ("stopped", Some e1)) /\
  (fair (List.length [EmptyString; "stopped"]) startedFirst /\
   onlyFirst 0 = None /\
   (forall i, i < List.length [EmptyString; "stopped"] -> i <> 0 -> onlyFirst i <> None) /\
   returned (WaitForAnyMachineState tt m1 [EmptyString; "stopped"] (5 * Second)%Z
               (@None (@StatusLine unit unit)) onlyFirst startedFirst tt)
   = Some (EmptyString, Some e1)).
Proof.
  split; (split; [exact fair_startedFirst|]); (split; [reflexivity|]);
    (split; [|reflexivity]).
  - intros [|[|i]] Hi Hn; cbn in *; [discriminate|contradiction|lia].
  - intros [|[|i]] Hi Hn; cbn in *; [contradiction|discriminate|lia].
Qed.

(** C2, as amended: when the list of candidate states is not empty and
    every query fails, every fair schedule makes
    [WaitForAnyMachineState] return the empty string and a non-nil
    error, the error of the goroutine that finished last. *)
Theorem WaitForAny_all_fail
        {UI Status : Type} (StatusRunning : Status) (mach : Machine)
        (possibleStates : list string) (timeout : Duration)
        (sl : option (@StatusLine UI Status)) (results : nat -> option error)
        (sched : list event) (ui : UI) :
  possibleStates <> [] ->
  (forall i, i < List.length possibleStates -> results i <> None) ->
  fair (List.length possibleStates) sched ->
  exists e,
    results (last (finishes sched) 0) = Some e /\
    returned (WaitForAnyMachineState StatusRunning mach possibleStates timeout sl
                                     results sched ui) = Some (EmptyString, Some e).
Proof.
  intros Hne Hl F.
  rewrite (WaitForAnyMachineState_returns StatusRunning mach possibleStates results
             timeout sl sched ui F).
  destruct (fair_finishes possibleStates sched F) as (L & V & _ & _).
  assert (Hf : Forall (fun i => i < List.length possibleStates /\ results i <> None)
                      (finishes sched)).
  { apply Forall_forall. intros i Hi. rewrite Forall_forall in V. auto. }
  destruct (settle_all_fail possibleStates results (finishes sched) start Hf eq_refl)
    as [-> ->].
  destruct (finishes sched) as [|i fs] eqn:E.
  - destruct possibleStates; [contradiction|discriminate].
  - assert (Hin : In (last (i :: fs) 0) (i :: fs)).
    { destruct (exists_last (l := i :: fs)) as (l' & a & ->); [discriminate|].
      rewrite last_last. apply in_or_app. right. now left. }
    rewrite Forall_forall in Hf. destruct (Hf _ Hin) as [_ Hr].
    destruct (results (last (i :: fs) 0)) as [e|]; [|contradiction].
    now exists e.
Qed.

Lemma WaitForAny_all_fail_witness :
  exists e,
    noneSucceeds (last (finishes startedFirst) 0) = Some e /\
    returned (WaitForAnyMachineState tt m1 startedOrStopped (5 * Second)%Z (Some keep)
                                     noneSucceeds startedFirst [])
    = Some (EmptyString, Some e).
Proof.
  apply (WaitForAny_all_fail tt m1 startedOrStopped (5 * Second)%Z (Some keep)
           noneSucceeds startedFirst []).
  - discriminate.
  - intros [|i] _; discriminate.
  - exact fair_startedFirst.
Defined.

(** C2 as stated also covers the empty list, where every query fails
    because there is none: the call returns a nil error. *)
Lemma WaitForAny_all_fail_empty_list :
  fair (List.length (@nil string)) [Poll] /\
  (forall i, i < List.length (@nil string) -> noneSucceeds i <> None) /\
  returned (WaitForAnyMachineState tt m1 [] (5 * Second)%Z
              (@None (@StatusLine unit unit)) noneSucceeds [Poll] tt)
  = Some (EmptyString, None).
Proof.
  split; [|split; [|reflexivity]].
  - split; [apply perm_nil|now exists []].
  - intros i Hi. cbn in Hi. lia.
Qed.

(** C3: when two or more queries succeed, under every fair schedule the
    call returns the state of one goroutine whose query succeeded.  The
    first succeeding goroutine to take the mutex sets
    [successfulState] to its state, and that state is what the call
    returns when it is not empty.  A critical section entered with a
    winner recorded never changes the winner, nor does any sequence of
    them. *)
Theorem WaitForAny_first_writer_wins
        {UI Status : Type} (StatusRunning : Status) (mach : Machine)
        (possibleStates : list string) (timeout : Duration)
        (sl : option (@StatusLine UI Status)) (results : nat -> option error)
        (sched : list event) (ui : UI) (i j : nat) :
  fair (List.length possibleStates) sched ->
  i <> j ->
  i < List.length possibleStates -> j < List.length possibleStates ->
  results i = None -> results j = None ->
  (exists k st err,
      results k = None /\ nth_error possibleStates k = Some st /\
      returned (WaitForAnyMachineState StatusRunning mach possibleStates timeout sl
                                       results sched ui) = Some (st, err)) /\
  (forall before k after st,
      finishes sched = (before ++ k :: after)%list ->
      Forall (fun l => results l <> None) before ->
      results k = None ->
      nth_error possibleStates k = Some st ->
      successfulState (settle possibleStates results (before ++ [k]) start) = st /\
      (st <> EmptyString ->
       exists err,
         returned (WaitForAnyMachineState StatusRunning mach possibleStates timeout sl
                                          results sched ui) = Some (st, err))) /\
  (forall state err s ui',
      successfulState s <> EmptyString ->
      successfulState (fst (watcher StatusRunning sl mach state err s ui'))
      = successfulState s) /\
  (forall fs s,
      successfulState s <> EmptyString ->
      successfulState (settle possibleStates results fs s) = successfulState s).
Proof.
  intros F _ Hi _ Hri _.
  rewrite (WaitForAnyMachineState_returns StatusRunning mach possibleStates results
             timeout sl sched ui F).
  destruct (fair_finishes possibleStates sched F) as (_ & V & _ & A).
  split; [|split; [|split]].
  - destruct (settle_origin possibleStates results (finishes sched) start eq_refl)
      as [E|(k & _ & Hr & Hn)].
    + destruct (nth_error possibleStates i) as [st|] eqn:Hn;
        [|apply nth_error_None in Hn; lia].
      exists i, st, (waitErr (settle possibleStates results (finishes sched) start)).
      repeat split; [exact Hri|exact Hn|].
      rewrite E. f_equal. f_equal. symmetry.
      exact (settle_no_winner possibleStates results (finishes sched) start i st
               E eq_refl (A i Hi) Hri Hn).
    + now exists k, (successfulState (settle possibleStates results (finishes sched) start)),
                 (waitErr (settle possibleStates results (finishes sched) start)).
  - intros before k later st E Hb Hr Hn.
    assert (Hb' : Forall (fun l => l < List.length possibleStates /\ results l <> None)
                         before).
    { rewrite E in V. apply Forall_app in V as [V _].
      rewrite Forall_forall in *. auto. }
    destruct (settle_winner possibleStates results before later k st start
                Hb' eq_refl Hn Hr) as [S1 S2].
    split; [exact S1|].
    intros Hst. rewrite E. destruct (S2 Hst) as [-> _]. eauto.
  - intros state err s ui' Hs. rewrite watcher_update.
    apply (update_stable state err s Hs).
  - intros fs s Hs. apply (settle_stable possibleStates results fs s Hs).
Qed.

Lemma WaitForAny_first_writer_wins_witness :
  exists k st err,
    allSucceed k = None /\ nth_error startedOrStopped k = Some st /\
    returned (WaitForAnyMachineState tt m1 startedOrStopped (5 * Second)%Z (Some keep)
                                     allSucceed stoppedFirst [])
    = Some (st, err).
Proof.
  apply (WaitForAny_first_writer_wins tt m1 startedOrStopped (5 * Second)%Z (Some keep)
           allSucceed stoppedFirst [] 0 1);
    solve [exact fair_stoppedFirst | discriminate | cbn; lia | reflexivity].
Defined.

(** C8: for the same machine, states, query results and schedule, the
    call with a status line and the call with a nil one issue the same
    queries and return the same pair, whatever the terminal shows. *)
Theorem WaitForAny_status_line_irrelevant
        {UI Status : Type} (StatusRunning : Status) (mach : Machine)
        (possibleStates : list string) (timeout : Duration)
        (sl : @StatusLine UI Status) (results : nat -> option error)
        (sched : list event) (ui ui' : UI) :
  returned (WaitForAnyMachineState StatusRunning mach possibleStates timeout (Some sl)
                                   results sched ui)
  = returned (WaitForAnyMachineState StatusRunning mach possibleStates timeout None
                                     results sched ui') /\
  queries (WaitForAnyMachineState StatusRunning mach possibleStates timeout (Some sl)
                                  results sched ui)
  = queries (WaitForAnyMachineState StatusRunning mach possibleStates timeout None
                                    results sched ui').
Proof.
  unfold WaitForAnyMachineState; cbn [returned queries].
  now rewrite !race_coordinator.
Qed.

(** C9: with no candidate state no goroutine is started and no query
    issued; the first round of the coordinator finds the count of
    completed goroutines, zero, equal to the number of states and
    returns the empty string with a nil error. *)
Theorem WaitForAny_no_candidates
        {UI Status : Type} (StatusRunning : Status) (mach : Machine)
        (timeout : Duration) (sl : option (@StatusLine UI Status))
        (results : nat -> option error) (sched : list event) (ui : UI) :
  In Poll sched ->
  WaitForAnyMachineState StatusRunning mach [] timeout sl results sched ui
  = {| queries := []; returned := Some (EmptyString, None); screen := ui |}.
Proof.
  intros H. unfold WaitForAnyMachineState. cbn [map].
  assert (R : race StatusRunning sl mach [] results sched
                   {| waitErr := None; numCompleted := 0; successfulState := EmptyString |} ui
              = (Some (EmptyString, None), ui)).
  { induction sched as [|[i|] sched IH]; [contradiction| |reflexivity].
    cbn [race]. destruct i; cbn [nth_error]; apply IH;
      destruct H as [H|H]; try discriminate; exact H. }
  now rewrite R.
Qed.

Lemma WaitForAny_no_candidates_witness :
  WaitForAnyMachineState tt m1 [] (5 * Second)%Z (Some keep) noneSucceeds [Poll] []
  = {| queries := []; returned := Some (EmptyString, None); screen := [] |}.
Proof.
  apply (WaitForAny_no_candidates tt m1 (5 * Second)%Z (Some keep) noneSucceeds [Poll] []).
  now left.
Defined.

(** * More about [WaitForStartOrStop] *)

Section WaiterRuns.

Variable No : string.
Variable machine : Machine.
Variable limit : Duration.
Variable w : string.

(** A failed query that makes the loop go round again was answered
    under a live context. *)
Lemma onError_Retry_live (err : error) (cerr : ctxErr) :
  onError No machine limit w err cerr = Retry -> cerr = ctxLive.
Proof. destruct cerr; [reflexivity|discriminate|discriminate]. Qed.

(** The loop never stops a failed query with a nil result. *)
Lemma onError_Stop_not_nil (err : error) (cerr : ctxErr) :
  onError No machine limit w err cerr <> Stop (Returned None) /\
  onError No machine limit w err cerr <> Stop Looping.
Proof.
  destruct cerr; cbn [onError]; try (split; discriminate).
  unfold onPayload.
  destruct (Contains _ _); [destruct (Config machine) as [c|];
    [destruct (Restart c) as [r|]; [destruct (String.eqb _ _)|]|]|];
    try (split; discriminate);
    (destruct (AsFlapsError err) as [code|]; [destruct (code =? StatusBadRequest)%Z|]);
    split; discriminate.
Qed.

(** Every run is a number of retried iterations, followed by one last
    query unless the answers ran out. *)
Lemma waitLoop_shape (answers : list answer) :
  forall b,
    exists k,
      k <= List.length answers /\
      snd (waitLoop No machine limit w b answers)
      = (retried w b k
           ++ match fst (waitLoop No machine limit w b answers) with
              | Looping => []
              | _ => [Wait w (60 * Second)%Z]
              end)%list /\
      (fst (waitLoop No machine limit w b answers) = Looping -> k = List.length answers).
Proof.
  induction answers as [|[err cerr] answers IH]; intros b.
  - exists 0. split; [cbn; lia|]. split; reflexivity.
  - cbn [waitLoop]. destruct err as [err|].
    + destruct (onError No machine limit w err cerr) as [r|] eqn:E.
      * exists 0. cbn [after fst snd retried app List.length].
        destruct (onError_Stop_not_nil err cerr) as [_ NL]. rewrite E in NL.
        split; [lia|]. split; [destruct r; congruence|congruence].
      * cbn [backoff.Duration]. unfold after at 1 2 3. cbn [fst snd].
        destruct (IH {| backoff.Min := backoff.Min b; backoff.Max := backoff.Max b;
                        backoff.Factor := backoff.Factor b;
                        backoff.Jitter := backoff.Jitter b;
                        backoff.attempt := S (backoff.attempt b) |})
          as (k & Hk & Ht & Hl).
        exists (S k). unfold after. cbn [fst snd retried app List.length backoff.Duration].
        split; [lia|]. split; [now rewrite Ht|]. intros L. now rewrite (Hl L).
    + exists 0. cbn [after fst snd retried app List.length]. split; [lia|].
      split; [reflexivity|discriminate].
Qed.

(** A run that returns nil consumed a success after failures that were
    all retried. *)
Lemma waitLoop_nil_inv (answers : list answer) :
  forall b,
    fst (waitLoop No machine limit w b answers) = Returned None ->
    exists errs c rest,
      Forall (fun e => onError No machine limit w e ctxLive = Retry) errs /\
      answers = (failing errs ++ (None, c) :: rest)%list.
Proof.
  induction answers as [|[err cerr] answers IH]; intros b; [discriminate|].
  cbn [waitLoop]. destruct err as [err|].
  - destruct (onError No machine limit w err cerr) as [r|] eqn:E.
    + cbn [after fst]. intros ->. now destruct (onError_Stop_not_nil err cerr).
    + cbn [backoff.Duration]. unfold after. cbn [fst]. intros H.
      destruct (IH _ H) as (errs & c & rest & Hf & ->).
      pose proof (onError_Retry_live err cerr E) as ->.
      exists (err :: errs), c, rest. split; [now constructor|reflexivity].
  - intros _. exists [], cerr, answers. split; [constructor|reflexivity].
Qed.

(** A run still in its loop has seen nothing but retried failures. *)
Lemma waitLoop_Looping_inv (answers : list answer) :
  forall b,
    fst (waitLoop No machine limit w b answers) = Looping ->
    exists errs,
      Forall (fun e => onError No machine limit w e ctxLive = Retry) errs /\
      answers = failing errs.
Proof.
  induction answers as [|[err cerr] answers IH]; intros b.
  - intros _. exists []. split; [constructor|reflexivity].
  - cbn [waitLoop]. destruct err as [err|]; [|discriminate].
    destruct (onError No machine limit w err cerr) as [r|] eqn:E.
    + cbn [after fst]. intros ->. now destruct (onError_Stop_not_nil err cerr).
    + cbn [backoff.Duration]. unfold after. cbn [fst]. intros H.
      destruct (IH _ H) as (errs & Hf & ->).
      pose proof (onError_Retry_live err cerr E) as ->.
      exists (err :: errs). split; [now constructor|reflexivity].
Qed.

(** Answers after the one that ends the run are never asked for. *)
Lemma waitLoop_stops (answers more : list answer) :
  forall b,
    fst (waitLoop No machine limit w b answers) <> Looping ->
    waitLoop No machine limit w b (answers ++ more)%list
    = waitLoop No machine limit w b answers.
Proof.
  induction answers as [|[err cerr] answers IH]; intros b H; [now contradiction H|].
  cbn [app waitLoop] in *. destruct err as [err|]; [|reflexivity].
  destruct (onError No machine limit w err cerr); [reflexivity|].
  cbn [backoff.Duration] in *. unfold after in *. cbn [fst] in H.
  now rewrite (IH _ H).
Qed.

End WaiterRuns.

(** What the [default] case stops with. *)
Lemma onPayload_Stop (No : string) (machine : Machine) (err : error) (r : outcome) :
  onPayload No machine err = Stop r ->
  (r = Panicked /\ Config machine = None /\
   Contains (Error err) "machine failed to reach desired state" = true) \/
  (r = Returned (Some (Errorf
         ("machine failed to reach desired start state, and restart policy was set to "
            ++ No ++ " restart"))) /\
   Contains (Error err) "machine failed to reach desired state" = true /\
   exists config, Config machine = Some config /\ Restart config = Some {| Policy := No |}) \/
  (r = Returned (Some (ErrorfWrap ("failed waiting for machine: " ++ Error err) err)) /\
   AsFlapsError err = Some StatusBadRequest).
Proof.
  unfold onPayload.
  assert (B : match AsFlapsError err with
              | Some code =>
                if (code =? StatusBadRequest)%Z then
                  Stop (Returned (Some (ErrorfWrap ("failed waiting for machine: " ++ Error err) err)))
                else Retry
              | None => Retry
              end = Stop r ->
              r = Returned (Some (ErrorfWrap ("failed waiting for machine: " ++ Error err) err)) /\
              AsFlapsError err = Some StatusBadRequest).
  { destruct (AsFlapsError err) as [code|]; [|discriminate].
    destruct (Z.eqb_spec code StatusBadRequest) as [->|]; [|discriminate].
    intros [= <-]. split; reflexivity. }
  destruct (Contains (Error err) _) eqn:C; [|auto].
  destruct (Config machine) as [config|] eqn:Hc.
  - destruct (Restart config) as [[policy]|] eqn:Hr; [|auto].
    cbn [Policy]. destruct (String.eqb_spec policy No) as [->|]; [|auto].
    intros [= <-]. right. left. split; [reflexivity|]. split; [reflexivity|].
    now exists config.
  - intros [= <-]. auto.
Qed.

(** A run that returns an error stopped at a failed query, after
    failures that were all retried. *)
Lemma waitLoop_error_inv (No : string) (machine : Machine) (limit : Duration) (w : string)
      (answers : list answer) :
  forall b r,
    fst (waitLoop No machine limit w b answers) = r ->
    r <> Looping -> r <> Returned None ->
    exists errs err cerr rest,
      Forall (fun e => onError No machine limit w e ctxLive = Retry) errs /\
      answers = (failing errs ++ (Some err, cerr) :: rest)%list /\
      onError No machine limit w err cerr = Stop r.
Proof.
  induction answers as [|[err cerr] answers IH]; intros b r; [cbn; congruence|].
  cbn [waitLoop]. destruct err as [err|]; [|cbn; congruence].
  destruct (onError No machine limit w err cerr) as [r'|] eqn:E.
  - cbn [after fst]. intros -> _ _.
    exists [], err, cerr, answers. split; [constructor|]. split; [reflexivity|exact E].
  - cbn [backoff.Duration]. unfold after. cbn [fst]. intros H NL NN.
    destruct (IH _ r H NL NN) as (errs & err' & cerr' & rest & Hf & -> & Hs).
    pose proof (onError_Retry_live No machine limit w err cerr E) as ->.
    exists (err :: errs), err', cerr', rest.
    split; [now constructor|]. split; [reflexivity|exact Hs].
Qed.

(** X1: [WaitForStartOrStop] returns nil exactly when the action is
    [start] or [stop] and a query succeeded after failures that were all
    retried: nil is never returned without a successful query. *)
Theorem WaitForStartOrStop_nil_iff
        (No : string) (machine : Machine) (action : string) (limit : Duration)
        (answers : list answer) :
  fst (WaitForStartOrStop No machine action limit answers) = Returned None <->
  exists w errs c rest,
    waitOn action = Some w /\
    Forall (fun e => onError No machine limit w e ctxLive = Retry) errs /\
    answers = (failing errs ++ (None, c) :: rest)%list.
Proof.
  unfold WaitForStartOrStop. split.
  - destruct (waitOn action) as [w|]; [|discriminate].
    intros H. destruct (waitLoop_nil_inv No machine limit w answers _ H)
      as (errs & c & rest & Hf & E).
    now exists w, errs, c, rest.
  - intros (w & errs & c & rest & -> & Hf & ->).
    now rewrite (waitLoop_retried No machine limit w errs _ Hf newBackoff).
Qed.

(** X2: the loop has no bound on the number of attempts.  After any
    number [K] of failures that are retried the call is still in its
    loop, with [K] queries and [K] sleeps behind it; and it is in its
    loop only then. *)
Theorem WaitForStartOrStop_keeps_retrying
        (No : string) (machine : Machine) (action w : string) (limit : Duration)
        (answers : list answer) :
  waitOn action = Some w ->
  (fst (WaitForStartOrStop No machine action limit answers) = Looping <->
   exists errs,
     Forall (fun e => onError No machine limit w e ctxLive = Retry) errs /\
     answers = failing errs) /\
  (fst (WaitForStartOrStop No machine action limit answers) = Looping ->
   waits (snd (WaitForStartOrStop No machine action limit answers)) = List.length answers /\
   List.length (sleeps (snd (WaitForStartOrStop No machine action limit answers)))
   = List.length answers).
Proof.
  intros Hw. unfold WaitForStartOrStop. rewrite Hw. split; [split|].
  - apply waitLoop_Looping_inv.
  - intros (errs & Hf & ->).
    rewrite <- (app_nil_r (failing errs)).
    now rewrite (waitLoop_retried No machine limit w errs [] Hf newBackoff).
  - intros L.
    destruct (waitLoop_shape No machine limit w answers newBackoff) as (k & _ & Ht & Hl).
    rewrite Ht, L, (Hl L), waits_retried, sleeps_retried, length_app, length_map, length_seq.
    cbn. lia.
Qed.

Lemma WaitForStartOrStop_keeps_retrying_witness :
  fst (WaitForStartOrStop "no" m1 "stop" (5 * Second)%Z (failing [e1; e3; e1])) = Looping /\
  waits (snd (WaitForStartOrStop "no" m1 "stop" (5 * Second)%Z (failing [e1; e3; e1]))) = 3.
Proof.
  destruct (WaitForStartOrStop_keeps_retrying "no" m1 "stop" "stopped" (5 * Second)%Z
              (failing [e1; e3; e1]) eq_refl) as [[_ L] C].
  assert (H : fst (WaitForStartOrStop "no" m1 "stop" (5 * Second)%Z (failing [e1; e3; e1]))
              = Looping).
  { apply L. exists [e1; e3; e1]. split; [repeat constructor|reflexivity]. }
  split; [exact H|exact (proj1 (C H))].
Defined.

(** X3: in every run, whatever the action and the answers, the sleep
    number [i] (from 0) lasts [min (500ms * 2^i) 2s]. *)
Theorem WaitForStartOrStop_every_sleep
        (No : string) (machine : Machine) (action : string) (limit : Duration)
        (answers : list answer) (i : nat) :
  i < List.length (sleeps (snd (WaitForStartOrStop No machine action limit answers))) ->
  nth i (sleeps (snd (WaitForStartOrStop No machine action limit answers))) 0%Z
  = Z.min (500 * Millisecond * 2 ^ Z.of_nat i) (2 * Second).
Proof.
  unfold WaitForStartOrStop. destruct (waitOn action) as [w|]; [|cbn; lia].
  destruct (waitLoop_shape No machine limit w answers newBackoff) as (k & _ & -> & _).
  rewrite sleeps_retried.
  assert (T : sleeps match fst (waitLoop No machine limit w newBackoff answers) with
                     | Looping => []
                     | _ => [Wait w (60 * Second)%Z]
                     end = []).
  { now destruct (fst (waitLoop No machine limit w newBackoff answers)). }
  rewrite T, app_nil_r, length_map, length_seq. intros Hi.
  rewrite (nth_indep _ 0%Z (backoff.ForAttempt newBackoff (backoff.attempt newBackoff + 0)))
    by (rewrite length_map, length_seq; lia).
  rewrite (map_nth (fun k => backoff.ForAttempt newBackoff (backoff.attempt newBackoff + k))).
  rewrite seq_nth by lia. apply newBackoff_ForAttempt.
Qed.

Lemma WaitForStartOrStop_every_sleep_witness :
  nth 2 (sleeps (snd (WaitForStartOrStop "no" m1 "start" (5 * Second)%Z
                        (failing [e1; e1; e1] ++ [(Some e3, Canceled)])%list))) 0%Z
  = Z.min (500 * Millisecond * 2 ^ Z.of_nat 2) (2 * Second).
Proof.
  apply (WaitForStartOrStop_every_sleep "no" m1 "start" (5 * Second)%Z
           (failing [e1; e1; e1] ++ [(Some e3, Canceled)])%list 2).
  cbn. lia.
Defined.

(** X4: the trace of a call for [start] or [stop] is a strict
    alternation: each query asks for the state waited for with a
    per-attempt timeout of 60 seconds, a sleep follows every query but
    the one the call ends on, and nothing follows that one. *)
Theorem WaitForStartOrStop_trace_shape
        (No : string) (machine : Machine) (action w : string) (limit : Duration)
        (answers : list answer) :
  waitOn action = Some w ->
  exists k,
    k <= List.length answers /\
    snd (WaitForStartOrStop No machine action limit answers)
    = (retried w newBackoff k
         ++ match fst (WaitForStartOrStop No machine action limit answers) with
            | Looping => []
            | _ => [Wait w (60 * Second)%Z]
            end)%list.
Proof.
  intros Hw. unfold WaitForStartOrStop. rewrite Hw.
  destruct (waitLoop_shape No machine limit w answers newBackoff) as (k & Hk & Ht & _).
  now exists k.
Qed.

Lemma WaitForStartOrStop_trace_shape_witness :
  exists k,
    k <= 3 /\
    snd (WaitForStartOrStop "no" m1 "start" (5 * Second)%Z
           [(Some e1, ctxLive); (Some e2, ctxLive); (None, ctxLive)])
    = (retried "started" newBackoff k ++ [Wait "started" (60 * Second)%Z])%list.
Proof.
  exact (WaitForStartOrStop_trace_shape "no" m1 "start" "started" (5 * Second)%Z
           [(Some e1, ctxLive); (Some e2, ctxLive); (None, ctxLive)] eq_refl).
Defined.

(** X5: a failed query that carries a [*flaps.FlapsError] with status
    400, when the restart-policy test does not apply, ends the call at
    once: no sleep follows the query, and the error returned wraps the
    query's error, so that its text is prefixed and [errors.As] still
    finds the status 400. *)
Theorem WaitForStartOrStop_bad_request
        (No : string) (machine : Machine) (action w : string) (limit : Duration)
        (errs : list error) (err : error) (rest : list answer) :
  waitOn action = Some w ->
  Forall (fun e => onError No machine limit w e ctxLive = Retry) errs ->
  AsFlapsError err = Some StatusBadRequest ->
  (Contains (Error err) "machine failed to reach desired state" = false \/
   exists config, Config machine = Some config /\
     match Restart config with
     | Some restart => Policy restart <> No
     | None => True
     end) ->
  WaitForStartOrStop No machine action limit
                     (failing errs ++ (Some err, ctxLive) :: rest)%list
  = (Returned (Some (ErrorfWrap ("failed waiting for machine: " ++ Error err) err)),
     (retried w newBackoff (List.length errs) ++ [Wait w (60 * Second)%Z])%list) /\
  AsFlapsError (ErrorfWrap ("failed waiting for machine: " ++ Error err) err)
  = Some StatusBadRequest /\
  Error (ErrorfWrap ("failed waiting for machine: " ++ Error err) err)
  = "failed waiting for machine: " ++ Error err.
Proof.
  intros Hw Hf Hs Hp. unfold WaitForStartOrStop. rewrite Hw.
  rewrite (waitLoop_retried No machine limit w errs _ Hf newBackoff).
  cbn [waitLoop onError]. 
  assert (P : onPayload No machine err
              = Stop (Returned (Some (ErrorfWrap ("failed waiting for machine: " ++ Error err)
                                                 err)))).
  { unfold onPayload. rewrite Hs, Z.eqb_refl.
    destruct Hp as [->|(config & -> & Hr)]; [reflexivity|].
    destruct (Contains _ _); [|reflexivity].
    destruct (Restart config) as [restart|]; [|reflexivity].
    now destruct (String.eqb_spec (Policy restart) No). }
  rewrite P. cbn [after fst snd AsFlapsError Error]. auto.
Qed.

Lemma WaitForStartOrStop_bad_request_witness :
  WaitForStartOrStop "no" m1 "stop" (5 * Second)%Z
                     (failing [e1] ++ [(Some (ClientErr "invalid state" (Some 400%Z)), ctxLive);
                                       (None, ctxLive)])%list
  = (Returned (Some (ErrorfWrap "failed waiting for machine: invalid state"
                                (ClientErr "invalid state" (Some 400%Z)))),
     [Wait "stopped" (60 * Second)%Z; Sleep (500 * Millisecond)%Z;
      Wait "stopped" (60 * Second)%Z]).
Proof.
  apply (WaitForStartOrStop_bad_request "no" m1 "stop" "stopped" (5 * Second)%Z
           [e1] (ClientErr "invalid state" (Some 400%Z)) [(None, ctxLive)]).
  - reflexivity.
  - repeat constructor.
  - reflexivity.
  - left. reflexivity.
Defined.

(** X6: once the call has returned or panicked, what the flaps client
    would have answered next plays no part: the outcome and the trace
    are those of the answers consumed. *)
Theorem WaitForStartOrStop_stops
        (No : string) (machine : Machine) (action : string) (limit : Duration)
        (answers more : list answer) :
  fst (WaitForStartOrStop No machine action limit answers) <> Looping ->
  WaitForStartOrStop No machine action limit (answers ++ more)%list
  = WaitForStartOrStop No machine action limit answers.
Proof.
  unfold WaitForStartOrStop. destruct (waitOn action) as [w|]; [|reflexivity].
  apply waitLoop_stops.
Qed.

Lemma WaitForStartOrStop_stops_witness :
  WaitForStartOrStop "no" m1 "start" (5 * Second)%Z
                     ([(Some e1, ctxLive); (Some e2, ctxLive)] ++ [(None, ctxLive)])%list
  = WaitForStartOrStop "no" m1 "start" (5 * Second)%Z [(Some e1, ctxLive); (Some e2, ctxLive)].
Proof.
  apply (WaitForStartOrStop_stops "no" m1 "start" (5 * Second)%Z
           [(Some e1, ctxLive); (Some e2, ctxLive)] [(None, ctxLive)]).
  discriminate.
Defined.

(** X7: the errors a call for [start] or [stop] can return.  It stopped
    at a failed query, after failures that were all retried, and the
    error is the query's own error under a cancelled context, the
    [WaitTimeoutErr] of the call under an expired one, and under a live
    context the restart-policy failure (the text matched and the policy
    is [MachineRestartPolicyNo]) or the wrapped error of a status 400. *)
Theorem WaitForStartOrStop_error_kinds
        (No : string) (machine : Machine) (action w : string) (limit : Duration)
        (answers : list answer) (e : error) :
  waitOn action = Some w ->
  fst (WaitForStartOrStop No machine action limit answers) = Returned (Some e) ->
  exists errs err cerr rest,
    Forall (fun e' => onError No machine limit w e' ctxLive = Retry) errs /\
    answers = (failing errs ++ (Some err, cerr) :: rest)%list /\
    ((cerr = Canceled /\ e = err) \/
     (cerr = DeadlineExceeded /\
      e = TimeoutErr {| machineID := ID machine; timeout := limit; desiredState := w |}) \/
     (cerr = ctxLive /\
      Contains (Error err) "machine failed to reach desired state" = true /\
      (exists config, Config machine = Some config /\
                      Restart config = Some {| Policy := No |}) /\
      e = Errorf ("machine failed to reach desired start state, and restart policy was set to "
                    ++ No ++ " restart")) \/
     (cerr = ctxLive /\
      AsFlapsError err = Some StatusBadRequest /\
      e = ErrorfWrap ("failed waiting for machine: " ++ Error err) err)).
Proof.
  intros Hw. unfold WaitForStartOrStop. rewrite Hw. intros H.
  destruct (waitLoop_error_inv No machine limit w answers _ _ H)
    as (errs & err & cerr & rest & Hf & E & Hs); try discriminate.
  exists errs, err, cerr, rest. split; [exact Hf|]. split; [exact E|].
  destruct cerr; cbn [onError] in Hs.
  - destruct (onPayload_Stop No machine err _ Hs)
      as [(? & _)|[([= ->] & C & Hc)|([= ->] & A)]]; [discriminate| |].
    + right. right. left. auto.
    + right. right. right. auto.
  - injection Hs as ->. left. auto.
  - injection Hs as ->. right. left. auto.
Qed.

Lemma WaitForStartOrStop_error_kinds_witness :
  exists errs err cerr rest,
    Forall (fun e' => onError "no" m1 (5 * Second)%Z "started" e' ctxLive = Retry) errs /\
    [(Some e1, ctxLive); (Some e3, DeadlineExceeded)]
    = (failing errs ++ (Some err, cerr) :: rest)%list /\
    ((cerr = Canceled /\
      TimeoutErr {| machineID := "m1"; timeout := (5 * Second)%Z; desiredState := "started" |}
      = err) \/
     (cerr = DeadlineExceeded /\
      TimeoutErr {| machineID := "m1"; timeout := (5 * Second)%Z; desiredState := "started" |}
      = TimeoutErr {| machineID := ID m1; timeout := (5 * Second)%Z;
                      desiredState := "started" |}) \/
     (cerr = ctxLive /\
      Contains (Error err) "machine failed to reach desired state" = true /\
      (exists config, Config m1 = Some config /\
                      Restart config = Some {| Policy := "no" |}) /\
      TimeoutErr {| machineID := "m1"; timeout := (5 * Second)%Z; desiredState := "started" |}
      = Errorf ("machine failed to reach desired start state, and restart policy was set to "
                  ++ "no" ++ " restart")) \/
     (cerr = ctxLive /\
      AsFlapsError err = Some StatusBadRequest /\
      TimeoutErr {| machineID := "m1"; timeout := (5 * Second)%Z; desiredState := "started" |}
      = ErrorfWrap ("failed waiting for machine: " ++ Error err) err)).
Proof.
  exact (WaitForStartOrStop_error_kinds "no" m1 "start" "started" (5 * Second)%Z
           [(Some e1, ctxLive); (Some e3, DeadlineExceeded)]
           (TimeoutErr {| machineID := "m1"; timeout := (5 * Second)%Z;
                          desiredState := "started" |})
           eq_refl eq_refl).
Defined.

(** * More about [WaitForAnyMachineState] *)

Section RaceRuns.

Context {UI Status : Type}.
Variable StatusRunning : Status.
Variable sl : option (@StatusLine UI Status).
Variable mach : Machine.
Variable possibleStates : list string.
Variable results : nat -> option error.

(** With a winner recorded, the first round of the coordinator returns
    it; the goroutines that finish in between change neither the pair
    nor the status line. *)
Lemma race_decided (sched : list event) :
  forall s ui,
    successfulState s <> EmptyString ->
    In Poll sched ->
    race StatusRunning sl mach possibleStates results sched s ui
    = (Some (successfulState s, waitErr s), ui).
Proof.
  induction sched as [|[i|] sched IH]; intros s ui Hs Hp; [contradiction| |].
  - destruct Hp as [Hp|Hp]; [discriminate|]. cbn [race].
    destruct (nth_error possibleStates i) as [state|]; [|now apply IH].
    unfold watcher.
    destruct (String.eqb_spec (successfulState s) EmptyString); [contradiction|].
    cbn [negb]. rewrite IH; [reflexivity|exact Hs|exact Hp].
  - cbn [race]. unfold poll.
    now destruct (String.eqb_spec (successfulState s) EmptyString).
Qed.

(** While no winner is recorded and goroutines are still out, the rounds
    of the coordinator go by, and each failing goroutine records its
    error and reports on the status line. *)
Lemma race_undecided (pre tail : list event) :
  forall s ui,
    successfulState s = EmptyString ->
    Forall (fun i => i < List.length possibleStates /\ results i <> None) (finishes pre) ->
    numCompleted s + List.length (finishes pre) < List.length possibleStates ->
    race StatusRunning sl mach possibleStates results (pre ++ tail)%list s ui
    = race StatusRunning sl mach possibleStates results tail
           (settle possibleStates results (finishes pre) s)
           (reports StatusRunning sl mach possibleStates (finishes pre) ui).
Proof.
  induction pre as [|[i|] pre IH]; intros s ui Hs Hf Hn; [reflexivity| |].
  - cbn [finishes List.length] in *. apply Forall_cons_iff in Hf as [[Hi Hr] Hf].
    cbn [app race settle reports].
    destruct (nth_error possibleStates i) as [state|] eqn:E;
      [|apply nth_error_None in E; lia].
    destruct (results i) as [e|] eqn:R; [|contradiction].
    unfold watcher, update. rewrite Hs. cbn [negb String.eqb].
    rewrite IH; [|reflexivity|exact Hf|cbn; lia].
    now destruct sl.
  - cbn [finishes] in *. cbn [app race]. unfold poll. rewrite Hs. cbn [negb String.eqb orb].
    destruct (Nat.eqb_spec (numCompleted s) (List.length possibleStates)); [lia|].
    now apply IH.
Qed.

Lemma reports_snoc (fs : list nat) (w : nat) (st : string) :
  nth_error possibleStates w = Some st ->
  forall ui,
    reports StatusRunning sl mach possibleStates (fs ++ [w]) ui
    = match sl with
      | Some LogStatus =>
        LogStatus StatusRunning ("Machine " ++ ID mach ++ " reached " ++ st ++ " state")
                  (reports StatusRunning sl mach possibleStates fs ui)
      | None => reports StatusRunning sl mach possibleStates fs ui
      end.
Proof.
  intros Hw. induction fs as [|i fs IH]; intros ui; cbn [app reports].
  - rewrite Hw. now destruct sl.
  - destruct (nth_error possibleStates i), sl; apply IH.
Qed.

(** A successful goroutine that finds no winner recorded becomes the
    winner and reports; the next round of the coordinator returns. *)
Lemma race_winner (pre tail : list event) (w : nat) (st : string) (ui : UI) :
  Forall (fun i => i < List.length possibleStates /\ results i <> None) (finishes pre) ->
  List.length (finishes pre) < List.length possibleStates ->
  nth_error possibleStates w = Some st ->
  st <> EmptyString ->
  results w = None ->
  In Poll tail ->
  race StatusRunning sl mach possibleStates results (pre ++ Finish w :: tail)%list start ui
  = (Some (st, match finishes pre with
               | [] => None
               | _ => results (last (finishes pre) 0)
               end),
     reports StatusRunning sl mach possibleStates (finishes pre ++ [w]) ui).
Proof.
  intros Hf Hn Hw Hst Hr Hp.
  rewrite race_undecided; [|reflexivity|exact Hf|exact Hn].
  destruct (settle_all_fail possibleStates results (finishes pre) start Hf eq_refl)
    as [S1 S2].
  cbn [race]. rewrite Hw, Hr. unfold watcher. rewrite S1. cbn [negb String.eqb].
  rewrite race_decided; [|exact Hst|exact Hp].
  cbn [successfulState waitErr]. rewrite S2, (reports_snoc (finishes pre) w st Hw).
  reflexivity.
Qed.

(** With a nil status line nothing is ever shown. *)
Lemma reports_nil (fs : list nat) (ui : UI) :
  reports StatusRunning (@None (@StatusLine UI Status)) mach possibleStates fs ui = ui.
Proof.
  induction fs as [|i fs IH]; [reflexivity|].
  cbn [reports]. now destruct (nth_error possibleStates i).
Qed.

End RaceRuns.

(** A schedule splits at the event of a goroutine as the list of its
    goroutines does. *)
Lemma finishes_split (sched : list event) :
  forall before w later,
    finishes sched = (before ++ w :: later)%list ->
    exists pre tail,
      sched = (pre ++ Finish w :: tail)%list /\
      finishes pre = before /\ finishes tail = later.
Proof.
  induction sched as [|[i|] sched IH]; intros before w later E.
  - now destruct before.
  - cbn [finishes] in E. destruct before as [|b before].
    + injection E as -> E. now exists [], sched.
    + injection E as -> E. destruct (IH _ _ _ E) as (pre & tail & -> & <- & <-).
      now exists (Finish b :: pre), tail.
  - cbn [finishes] in E. destruct (IH _ _ _ E) as (pre & tail & -> & <- & <-).
    now exists (Poll :: pre), tail.
Qed.

Lemma Poll_after (pre sched' tail : list event) (w : nat) :
  (pre ++ Finish w :: tail)%list = (sched' ++ [Poll])%list -> In Poll tail.
Proof.
  intros E. apply (f_equal (@rev event)) in E.
  rewrite rev_app_distr, (rev_app_distr sched') in E. cbn [rev app] in E.
  rewrite <- app_assoc in E. cbn [app] in E.
  destruct (rev tail) as [|e l] eqn:R.
  - discriminate.
  - injection E as -> _. apply in_rev. rewrite R. now left.
Qed.

(** When every query fails, the status line has been given a message by
    each goroutine, in the order they finished, when the call returns. *)
Lemma race_all_fail {UI Status : Type} (StatusRunning : Status)
      (sl : option (@StatusLine UI Status)) (mach : Machine)
      (possibleStates : list string) (results : nat -> option error)
      (sched : list event) :
  forall s ui,
    successfulState s = EmptyString ->
    Forall (fun i => i < List.length possibleStates /\ results i <> None) (finishes sched) ->
    numCompleted s + List.length (finishes sched) = List.length possibleStates ->
    (exists sched', sched = (sched' ++ [Poll])%list) ->
    snd (race StatusRunning sl mach possibleStates results sched s ui)
    = reports StatusRunning sl mach possibleStates (finishes sched) ui.
Proof.
  induction sched as [|[i|] sched IH]; intros s ui Hs Hf Hn [pre Hp].
  - now destruct pre.
  - cbn [finishes List.length] in *. apply Forall_cons_iff in Hf as [[Hi Hr] Hf].
    cbn [race reports].
    destruct (nth_error possibleStates i) as [state|] eqn:E;
      [|apply nth_error_None in E; lia].
    destruct (results i) as [e|]; [|contradiction].
    unfold watcher. rewrite Hs. cbn [negb String.eqb].
    rewrite IH; [now destruct sl|reflexivity|exact Hf|cbn; lia|].
    destruct pre as [|x pre]; [discriminate|]. injection Hp as _ ->. now exists pre.
  - cbn [finishes] in *. cbn [race]. unfold poll. rewrite Hs. cbn [negb String.eqb orb].
    destruct (Nat.eqb_spec (numCompleted s) (List.length possibleStates)) as [En|En].
    + assert (finishes sched = []) as -> by (apply length_zero_iff_nil; lia).
      reflexivity.
    + apply IH; [exact Hs|exact Hf|exact Hn|].
      destruct pre as [|x pre].
      * injection Hp as ->. cbn in Hn. lia.
      * injection Hp as _ ->. now exists pre.
Qed.

(** X8: the error the call returns beside a winner.  Under a fair
    schedule, when the first goroutine to succeed waited for a state
    that is not the empty string, the call returns that state together
    with the error of the last goroutine that failed before it, and nil
    when none did. *)
Theorem WaitForAny_error_beside_winner
        {UI Status : Type} (StatusRunning : Status) (mach : Machine)
        (possibleStates : list string) (limit : Duration)
        (sl : option (@StatusLine UI Status)) (results : nat -> option error)
        (sched : list event) (ui : UI)
        (before later : list nat) (w : nat) (st : string) :
  fair (List.length possibleStates) sched ->
  finishes sched = (before ++ w :: later)%list ->
  Forall (fun i => results i <> None) before ->
  results w = None ->
  nth_error possibleStates w = Some st ->
  st <> EmptyString ->
  returned (WaitForAnyMachineState StatusRunning mach possibleStates limit sl
                                   results sched ui)
  = Some (st, match before with
              | [] => None
              | _ => results (last before 0)
              end).
Proof.
  intros F E Hb Hr Hw Hst.
  destruct (fair_finishes possibleStates sched F) as (L & V & _ & _).
  destruct (finishes_split sched before w later E) as (pre & tail & -> & <- & <-).
  destruct F as [_ [sched' Hp]].
  unfold WaitForAnyMachineState. cbn [returned]. fold start.
  rewrite (race_winner StatusRunning sl mach possibleStates results pre tail w st ui);
    [reflexivity| | |exact Hw|exact Hst|exact Hr|exact (Poll_after _ _ _ _ Hp)].
  - rewrite E in V. apply Forall_app in V as [V _]. rewrite Forall_forall in *. auto.
  - rewrite E, length_app in L. cbn in L. lia.
Qed.

Lemma WaitForAny_error_beside_winner_witness :
  returned (WaitForAnyMachineState tt m1 startedOrStopped (5 * Second)%Z (Some keep)
                                   onlySecond startedFirst [])
  = Some ("stopped", Some e1).
Proof.
  apply (WaitForAny_error_beside_winner tt m1 startedOrStopped (5 * Second)%Z (Some keep)
           onlySecond startedFirst [] [0] [] 1 "stopped").
  - exact fair_startedFirst.
  - reflexivity.
  - repeat constructor. discriminate.
  - reflexivity.
  - reflexivity.
  - discriminate.
Defined.

(** X9: the call does not wait for the losers.  As soon as a goroutine
    has succeeded for a state that is not the empty string, after any
    failures of other goroutines, the next round of the coordinator
    returns that state, whether the remaining goroutines ever finish or
    not. *)
Theorem WaitForAny_returns_without_losers
        {UI Status : Type} (StatusRunning : Status) (mach : Machine)
        (possibleStates : list string) (limit : Duration)
        (sl : option (@StatusLine UI Status)) (results : nat -> option error)
        (pre tail : list event) (ui : UI) (w : nat) (st : string) :
  NoDup (w :: finishes pre) ->
  Forall (fun i => i < List.length possibleStates /\ results i <> None) (finishes pre) ->
  results w = None ->
  nth_error possibleStates w = Some st ->
  st <> EmptyString ->
  In Poll tail ->
  returned (WaitForAnyMachineState StatusRunning mach possibleStates limit sl
                                   results (pre ++ Finish w :: tail)%list ui)
  = Some (st, match finishes pre with
              | [] => None
              | _ => results (last (finishes pre) 0)
              end).
Proof.
  intros D Hf Hr Hw Hst Hp.
  assert (Wl : w < List.length possibleStates) by (apply nth_error_Some; congruence).
  assert (Hn : List.length (finishes pre) < List.length possibleStates).
  { assert (I : incl (w :: finishes pre) (seq 0 (List.length possibleStates))).
    { intros i [<-|Hi]; apply in_seq; [lia|].
      rewrite Forall_forall in Hf. destruct (Hf i Hi). lia. }
    pose proof (NoDup_incl_length D I) as Hl. rewrite length_seq in Hl. cbn in Hl. lia. }
  unfold WaitForAnyMachineState. cbn [returned]. fold start.
  now rewrite (race_winner StatusRunning sl mach possibleStates results pre tail w st ui).
Qed.

Lemma WaitForAny_returns_without_losers_witness :
  returned (WaitForAnyMachineState tt m1 ["started"; "stopped"; "suspended"] (5 * Second)%Z
                                   (Some keep) onlySecond
                                   ([Poll; Finish 2; Poll] ++ Finish 1 :: [Poll])%list [])
  = Some ("stopped", Some e1).
Proof.
  apply (WaitForAny_returns_without_losers tt m1 ["started"; "stopped"; "suspended"]
           (5 * Second)%Z (Some keep) onlySecond [Poll; Finish 2; Poll] [Poll] [] 1 "stopped").
  - cbn. constructor; [|constructor; [intros []|constructor]].
    intros [H|[]]. discriminate.
  - cbn. constructor; [|constructor]. split; [lia|discriminate].
  - reflexivity.
  - reflexivity.
  - discriminate.
  - now left.
Defined.

(** X10: the call never returns while it is undecided.  As long as only
    failing goroutines have finished and fewer of them than there are
    candidate states, every round of the coordinator goes by without a
    result. *)
Theorem WaitForAny_waits_while_undecided
        {UI Status : Type} (StatusRunning : Status) (mach : Machine)
        (possibleStates : list string) (limit : Duration)
        (sl : option (@StatusLine UI Status)) (results : nat -> option error)
        (sched : list event) (ui : UI) :
  Forall (fun i => i < List.length possibleStates /\ results i <> None) (finishes sched) ->
  List.length (finishes sched) < List.length possibleStates ->
  returned (WaitForAnyMachineState StatusRunning mach possibleStates limit sl
                                   results sched ui) = None.
Proof.
  intros Hf Hn. unfold WaitForAnyMachineState. cbn [returned]. fold start.
  rewrite <- (app_nil_r sched).
  now rewrite (race_undecided StatusRunning sl mach possibleStates results sched []).
Qed.

Lemma WaitForAny_waits_while_undecided_witness :
  returned (WaitForAnyMachineState tt m1 startedOrStopped (5 * Second)%Z (Some keep)
                                   noneSucceeds [Poll; Finish 1; Poll; Poll] []) = None.
Proof.
  apply (WaitForAny_waits_while_undecided tt m1 startedOrStopped (5 * Second)%Z (Some keep)
           noneSucceeds [Poll; Finish 1; Poll; Poll] []).
  - cbn. constructor; [|constructor]. split; [lia|discriminate].
  - cbn. lia.
Defined.

(** X11: what the status line is told.  Under a fair schedule in which
    the first goroutine to succeed waited for a non-empty state, the
    status line has received, when the call returns, one "reached"
    message from every goroutine that finished up to and including the
    winner, those whose query failed among them, and none from the
    goroutines that finished after the winner. *)
Theorem WaitForAny_status_line_messages
        {UI Status : Type} (StatusRunning : Status) (mach : Machine)
        (possibleStates : list string) (limit : Duration)
        (sl : option (@StatusLine UI Status)) (results : nat -> option error)
        (sched : list event) (ui : UI)
        (before later : list nat) (w : nat) (st : string) :
  fair (List.length possibleStates) sched ->
  finishes sched = (before ++ w :: later)%list ->
  Forall (fun i => results i <> None) before ->
  results w = None ->
  nth_error possibleStates w = Some st ->
  st <> EmptyString ->
  screen (WaitForAnyMachineState StatusRunning mach possibleStates limit sl
                                 results sched ui)
  = reports StatusRunning sl mach possibleStates (before ++ [w]) ui.
Proof.
  intros F E Hb Hr Hw Hst.
  destruct (fair_finishes possibleStates sched F) as (L & V & _ & _).
  destruct (finishes_split sched before w later E) as (pre & tail & -> & <- & <-).
  destruct F as [_ [sched' Hp]].
  unfold WaitForAnyMachineState. cbn [screen]. fold start.
  rewrite (race_winner StatusRunning sl mach possibleStates results pre tail w st ui);
    [reflexivity| | |exact Hw|exact Hst|exact Hr|exact (Poll_after _ _ _ _ Hp)].
  - rewrite E in V. apply Forall_app in V as [V _]. rewrite Forall_forall in *. auto.
  - rewrite E, length_app in L. cbn in L. lia.
Qed.

Lemma WaitForAny_status_line_messages_witness :
  screen (WaitForAnyMachineState tt m1 ["started"; "stopped"; "suspended"] (5 * Second)%Z
                                 (Some keep) onlySecond
                                 [Finish 0; Finish 1; Finish 2; Poll] [])
  = ["Machine m1 reached started state"; "Machine m1 reached stopped state"].
Proof.
  apply (WaitForAny_status_line_messages tt m1 ["started"; "stopped"; "suspended"]
           (5 * Second)%Z (Some keep) onlySecond [Finish 0; Finish 1; Finish 2; Poll] []
           [0] [2] 1 "stopped").
  - split; [apply Permutation_refl|now exists [Finish 0; Finish 1; Finish 2]].
  - reflexivity.
  - repeat constructor. discriminate.
  - reflexivity.
  - reflexivity.
  - discriminate.
Defined.

(** X12: when every query fails, each goroutine still reports that the
    machine reached its state: under a fair schedule the status line
    has received the messages of all the goroutines, in the order they
    finished, when the call returns its error. *)
Theorem WaitForAny_all_fail_messages
        {UI Status : Type} (StatusRunning : Status) (mach : Machine)
        (possibleStates : list string) (limit : Duration)
        (sl : option (@StatusLine UI Status)) (results : nat -> option error)
        (sched : list event) (ui : UI) :
  (forall i, i < List.length possibleStates -> results i <> None) ->
  fair (List.length possibleStates) sched ->
  screen (WaitForAnyMachineState StatusRunning mach possibleStates limit sl
                                 results sched ui)
  = reports StatusRunning sl mach possibleStates (finishes sched) ui.
Proof.
  intros Hl F.
  destruct (fair_finishes possibleStates sched F) as (L & V & _ & _).
  unfold WaitForAnyMachineState. cbn [screen].
  apply race_all_fail; [reflexivity| |cbn; lia|apply F].
  rewrite Forall_forall in *. auto.
Qed.

Lemma WaitForAny_all_fail_messages_witness :
  screen (WaitForAnyMachineState tt m1 startedOrStopped (5 * Second)%Z (Some keep)
                                 noneSucceeds stoppedFirst [])
  = ["Machine m1 reached stopped state"; "Machine m1 reached started state"].
Proof.
  apply (WaitForAny_all_fail_messages tt m1 startedOrStopped (5 * Second)%Z (Some keep)
           noneSucceeds stoppedFirst []).
  - intros [|i] _; discriminate.
  - exact fair_stoppedFirst.
Defined.

(** * Facts about package [appconfig] *)

Module appconfigFacts.

Import appconfig.

Lemma forEach_Some {A B : Type} (f : A -> option B) (l : list A) :
  forall l', forEach f l = Some l' <-> Forall2 (fun a b => f a = Some b) l l'.
Proof.
  induction l as [|a l IH]; intros l'; cbn [forEach].
  - split; [intros [= <-]; constructor|intros H; now inversion H].
  - destruct (f a) as [b|] eqn:E.
    + destruct (forEach f l) as [l''|].
      * split.
        -- intros [= <-]. constructor; [exact E|now apply IH].
        -- intros H. inversion H as [|? b' ? l3 Hb Hl]; subst.
           apply IH in Hl. congruence.
      * split; [discriminate|]. intros H. inversion H as [|? b' ? l3 Hb Hl]; subst.
        apply IH in Hl. discriminate.
    + split; [destruct (forEach f l); discriminate|].
      intros H. inversion H; congruence.
Qed.

Lemma forEach_None {A B : Type} (f : A -> option B) (l : list A) :
  forEach f l = None <-> Exists (fun a => f a = None) l.
Proof.
  induction l as [|a l IH]; cbn [forEach].
  - split; [discriminate|intros H; inversion H].
  - destruct (f a) as [b|] eqn:E.
    + destruct (forEach f l) as [l''|].
      * split; [discriminate|]. intros H.
        inversion H as [? ? Ha|? ? Hl]; [congruence|]. apply IH in Hl. discriminate.
      * split; [|reflexivity]. intros _. right. now apply IH.
    + split; [|reflexivity]. intros _. now left.
Qed.

Section AnyInduction.

Context {Other : Type}.
Variable P : any Other -> Prop.
Hypothesis PStr : forall s, P (Str s).
Hypothesis PScalar : forall o, P (Scalar o).
Hypothesis PArray : forall l, Forall P l -> P (Array l).
Hypothesis PMap : forall m, Forall (fun kv => P (snd kv)) m -> P (Map m).
Hypothesis PAnyMap : forall m, Forall (fun kv => P (snd kv)) m -> P (AnyMap m).

Lemma any_values_ind (obj : any Other) : P obj.
Proof.
  revert obj. fix IH 1. intros [s|o|l|m|m].
  - apply PStr.
  - apply PScalar.
  - apply PArray. induction l as [|v l IHl]; constructor; [apply IH|exact IHl].
  - apply PMap. induction m as [|[k v] m IHm]; constructor; [apply IH|exact IHm].
  - apply PAnyMap. induction m as [|[k v] m IHm]; constructor; [apply IH|exact IHm].
Qed.

End AnyInduction.

Section Stringify.

Context {Other : Type}.

Lemma stringify_stringKeyed (obj : any Other) :
  forall obj', stringifyYAMLMapKeys obj = Some obj' -> stringKeyed obj' = true.
Proof.
  induction obj as [s|o|l IH|m IH|m IH] using any_values_ind; intros obj';
    cbn [stringifyYAMLMapKeys].
  - now intros [= <-].
  - now intros [= <-].
  - destruct (forEach _ l) as [l'|] eqn:E; [|discriminate]. intros [= <-].
    apply forEach_Some in E. cbn [stringKeyed].
    induction E as [|v v' l l' Hv _ IHE]; [reflexivity|].
    apply Forall_cons_iff in IH as [IHv IHl]. cbn [forallb].
    now rewrite (IHv _ Hv), (IHE IHl).
  - destruct (forEach _ m) as [m'|] eqn:E; [|discriminate]. intros [= <-].
    apply forEach_Some in E. cbn [stringKeyed].
    induction E as [|[k v] [k' v'] m m' Hv _ IHE]; [reflexivity|].
    apply Forall_cons_iff in IH as [IHv IHl]. cbn [forallb snd] in *.
    destruct (stringifyYAMLMapKeys v) as [v''|] eqn:Ev; [|discriminate].
    injection Hv as <- <-. now rewrite (IHv _ eq_refl), (IHE IHl).
  - destruct (forEach _ m) as [m'|] eqn:E; [|discriminate]. intros [= <-].
    apply forEach_Some in E. cbn [stringKeyed].
    induction E as [|[k v] [k' v'] m m' Hv _ IHE]; [reflexivity|].
    apply Forall_cons_iff in IH as [IHv IHl]. cbn [forallb snd] in *.
    destruct k; try discriminate.
    destruct (stringifyYAMLMapKeys v) as [v''|] eqn:Ev; [|discriminate].
    injection Hv as <- <-. now rewrite (IHv _ eq_refl), (IHE IHl).
Qed.

Lemma stringify_fixed (obj : any Other) :
  stringKeyed obj = true -> stringifyYAMLMapKeys obj = Some obj.
Proof.
  induction obj as [s|o|l IH|m IH|m IH] using any_values_ind;
    cbn [stringifyYAMLMapKeys stringKeyed]; try reflexivity; try discriminate.
  - intros H.
    assert (E : forEach stringifyYAMLMapKeys l = Some l).
    { induction l as [|v l IHl]; [reflexivity|].
      apply Forall_cons_iff in IH as [IHv IH]. cbn [forallb] in H.
      apply andb_true_iff in H as [Hv H]. cbn [forEach].
      now rewrite (IHv Hv), (IHl IH H). }
    now rewrite E.
  - intros H.
    assert (E : forEach (fun kv : string * any Other =>
                           let (k, v) := kv in
                           option_map (pair k) (stringifyYAMLMapKeys v)) m = Some m).
    { induction m as [|[k v] m IHm]; [reflexivity|].
      apply Forall_cons_iff in IH as [IHv IH]. cbn [forallb snd] in *.
      apply andb_true_iff in H as [Hv H]. cbn [forEach].
      now rewrite (IHv Hv), (IHm IH H). }
    now rewrite E.
Qed.

Lemma stringify_panics (obj : any Other) :
  stringifyYAMLMapKeys obj = None <-> otherKey obj = true.
Proof.
  induction obj as [s|o|l IH|m IH|m IH] using any_values_ind;
    cbn [stringifyYAMLMapKeys otherKey]; try (split; discriminate).
  - destruct (forEach _ l) as [l'|] eqn:E; cbn [option_map].
    + split; [discriminate|]. intros H. exfalso.
      apply existsb_exists in H as (v & Hin & Hv).
      rewrite Forall_forall in IH. apply (IH v Hin) in Hv.
      apply forEach_Some in E.
      clear IH. induction E as [|a b l l' Hab _ IHE]; [contradiction|].
      destruct Hin as [->|Hin]; [congruence|auto].
    + split; [|reflexivity]. intros _. apply forEach_None in E.
      apply existsb_exists. apply Exists_exists in E as (v & Hin & Hv).
      exists v. split; [exact Hin|]. rewrite Forall_forall in IH. now apply IH.
  - destruct (forEach _ m) as [m'|] eqn:E; cbn [option_map].
    + split; [discriminate|]. intros H. exfalso.
      apply existsb_exists in H as ([k v] & Hin & Hv).
      rewrite Forall_forall in IH. apply (IH _ Hin) in Hv. cbn [snd] in Hv.
      apply forEach_Some in E.
      clear IH. induction E as [|a b l l' Hab _ IHE]; [contradiction|].
      destruct Hin as [->|Hin]; [|auto]. now rewrite Hv in Hab.
    + split; [|reflexivity]. intros _. apply forEach_None in E.
      apply existsb_exists. apply Exists_exists in E as ([k v] & Hin & Hv).
      exists (k, v). split; [exact Hin|]. rewrite Forall_forall in IH.
      apply (IH _ Hin). cbn [snd]. now destruct (stringifyYAMLMapKeys v).
  - destruct (forEach _ m) as [m'|] eqn:E; cbn [option_map].
    + split; [discriminate|]. intros H. exfalso.
      apply existsb_exists in H as ([k v] & Hin & Hv).
      rewrite Forall_forall in IH. specialize (IH _ Hin). cbn [snd] in IH.
      apply forEach_Some in E.
      clear - E Hin Hv IH. induction E as [|a b l l' Hab _ IHE]; [contradiction|].
      destruct Hin as [->|Hin]; [|auto].
      destruct k; try discriminate. cbn in Hv. apply IH in Hv. now rewrite Hv in Hab.
    + split; [|reflexivity]. intros _. apply forEach_None in E.
      apply existsb_exists. apply Exists_exists in E as ([k v] & Hin & Hv).
      exists (k, v). split; [exact Hin|]. rewrite Forall_forall in IH.
      specialize (IH _ Hin). cbn [snd] in IH.
      destruct k; try reflexivity. cbn [isString negb orb]. apply IH.
      now destruct (stringifyYAMLMapKeys v).
Qed.

End Stringify.

(** X13: what [stringifyYAMLMapKeys] returns, when it does not panic,
    holds no map with [interface{}] keys at any depth, and converting it
    again changes nothing. *)
Theorem stringifyYAMLMapKeys_normal_form {Other : Type} (obj obj' : any Other) :
  stringifyYAMLMapKeys obj = Some obj' ->
  stringKeyed obj' = true /\ stringifyYAMLMapKeys obj' = Some obj'.
Proof.
  intros H. pose proof (stringify_stringKeyed obj obj' H) as K.
  split; [exact K|exact (stringify_fixed obj' K)].
Qed.

Lemma stringifyYAMLMapKeys_normal_form_witness :
  stringKeyed (Map [("env", Map [("PORT", @Scalar Z 8080%Z)])]) = true /\
  stringifyYAMLMapKeys (Map [("env", Map [("PORT", @Scalar Z 8080%Z)])])
  = Some (Map [("env", Map [("PORT", Scalar 8080%Z)])]).
Proof.
  apply (stringifyYAMLMapKeys_normal_form
           (Map [("env", AnyMap [(Str "PORT", @Scalar Z 8080%Z)])])).
  reflexivity.
Defined.

(** X14: [stringifyYAMLMapKeys] panics exactly when some map with
    [interface{}] keys, at any depth below arrays and map values, has a
    key that is not a string. *)
Theorem stringifyYAMLMapKeys_panics_iff {Other : Type} (obj : any Other) :
  stringifyYAMLMapKeys obj = None <-> otherKey obj = true.
Proof. apply stringify_panics. Qed.

(** X15: a document whose maps all have string keys already, as the
    JSON and TOML decoders produce them, is returned unchanged. *)
Theorem stringifyYAMLMapKeys_unchanged {Other : Type} (obj : any Other) :
  stringKeyed obj = true -> stringifyYAMLMapKeys obj = Some obj.
Proof. apply stringify_fixed. Qed.

Lemma stringifyYAMLMapKeys_unchanged_witness :
  stringifyYAMLMapKeys (Array [Map [("app", @Str Z "web")]; Scalar 1%Z])
  = Some (Array [Map [("app", Str "web")]; Scalar 1%Z]).
Proof.
  apply (stringifyYAMLMapKeys_unchanged (Array [Map [("app", @Str Z "web")]; Scalar 1%Z])).
  reflexivity.
Defined.

(** [filepath.Ext] returns the empty string or a string that starts
    with a dot. *)
Lemma extFrom_dot (sep : ascii -> bool) (rest : list ascii) :
  forall seen,
    extFrom sep rest seen = EmptyString \/
    exists t, extFrom sep rest seen = String "." t.
Proof.
  induction rest as [|c rest IH]; intros seen; cbn [extFrom]; [now left|].
  destruct (sep c); [now left|].
  destruct (Ascii.eqb_spec c "."); [|apply IH].
  subst. right. now exists seen.
Qed.

Lemma Ext_not_a_format (sep : ascii -> bool) (path : string) :
  String.eqb (Ext sep path) "json" = false /\ String.eqb (Ext sep path) "yaml" = false.
Proof.
  unfold Ext.
  destruct (extFrom_dot sep (rev (list_ascii_of_string path)) EmptyString)
    as [->|[t ->]]; split; reflexivity.
Qed.

Section Writing.

Context {Other Fields W : Type}.
Variable Write : string -> W -> (Z * option error) * W.

(** With the extension of a file name as its format, [WriteTo] encodes
    to TOML. *)
Lemma WriteTo_Ext (lib : Library Other Fields) (sep : ascii -> bool) (now : string)
      (c : option (Config Fields)) (w : W) (filename : string) :
  WriteTo lib Write now c w (Ext sep filename)
  = match marshalTOML lib c with
    | inl err => Wrote 0 (Some err) w
    | inr b =>
      match c with
      | None => WritePanic w
      | Some cfg =>
        let '((_, e), w') := Write (header (AppName cfg) now) w in
        match e with
        | Some err => Wrote 0 (Some err) w'
        | None => BufferWriteTo Write b w'
        end
      end
    end.
Proof.
  unfold WriteTo. destruct (Ext_not_a_format sep filename) as [-> ->]. reflexivity.
Qed.

End Writing.

(** X16: [WriteToFile] never writes JSON or YAML.  The format it hands
    to [WriteTo] is [filepath.Ext] of the file name, which is empty or
    starts with a dot and so is neither [json] nor [yaml]: two libraries
    with the same TOML encoder give the same run, whatever their JSON
    and YAML encoders do and whatever the file is called. *)
Theorem WriteToFile_ignores_extension
        {Other Fields W : Type} (lib lib' : Library Other Fields)
        (Write : string -> W -> (Z * option error) * W) (disk : Disk W)
        (now : string) (c : option (Config Fields)) (filename : string) :
  tomlEncode lib = tomlEncode lib' ->
  WriteToFile lib Write disk now c filename = WriteToFile lib' Write disk now c filename.
Proof.
  intros H. unfold WriteToFile.
  destruct (MkdirAll disk filename); [reflexivity|].
  destruct (Create disk filename) as [e|f]; [reflexivity|].
  rewrite !WriteTo_Ext. unfold marshalTOML. now rewrite H.
Qed.

Lemma WriteToFile_ignores_extension_witness :
  WriteToFile lenient bufferWrite sampleDisk "2024-01-01T00:00:00Z" (Some web) "out/fly.json"
  = WriteToFile strict bufferWrite sampleDisk "2024-01-01T00:00:00Z" (Some web) "out/fly.json".
Proof.
  apply (WriteToFile_ignores_extension lenient strict bufferWrite sampleDisk).
  reflexivity.
Defined.

(** X17: when the configuration cannot be encoded, [WriteToFile] has
    already created the file: it returns the encoder's error, having
    written nothing to the new file and closed it. *)
Theorem WriteToFile_failed_encoding
        {Other Fields W : Type} (lib : Library Other Fields)
        (Write : string -> W -> (Z * option error) * W) (disk : Disk W)
        (now : string) (cfg : Config Fields) (filename : string) (f : W) (err : error) :
  MkdirAll disk filename = None ->
  Create disk filename = inr f ->
  tomlEncode lib cfg = inl err ->
  WriteToFile lib Write disk now (Some cfg) filename
  = {| ended := Returns (Some err); file := Some f; closed := true |}.
Proof.
  intros Hm Hc He. unfold WriteToFile. rewrite Hm, Hc, WriteTo_Ext.
  unfold marshalTOML. now rewrite He.
Qed.

Lemma WriteToFile_failed_encoding_witness :
  WriteToFile {| jsonUnmarshal := jsonUnmarshal lenient;
                 yamlUnmarshal := yamlUnmarshal lenient;
                 tomlUnmarshal := tomlUnmarshal lenient;
                 applyPatches := applyPatches lenient;
                 jsonMarshal := jsonMarshal lenient;
                 jsonMarshalIndent := jsonMarshalIndent lenient;
                 yamlMarshal := yamlMarshal lenient;
                 tomlEncode := fun _ => inl (Errorf "unsupported value");
                 zeroFields := tt |}
              bufferWrite sampleDisk "2024-01-01T00:00:00Z" (Some web) "fly.toml"
  = {| ended := Returns (Some (Errorf "unsupported value"));
       file := Some EmptyString; closed := true |}.
Proof.
  apply WriteToFile_failed_encoding; reflexivity.
Defined.

(** X18: [WriteToFile] closes every file it creates, on all paths, the
    panicking one included; and when it returns nil the close succeeded
    too. *)
Theorem WriteToFile_closes
        {Other Fields W : Type} (lib : Library Other Fields)
        (Write : string -> W -> (Z * option error) * W) (disk : Disk W)
        (now : string) (c : option (Config Fields)) (filename : string) :
  (closed (WriteToFile lib Write disk now c filename) = true <->
   MkdirAll disk filename = None /\ exists f, Create disk filename = inr f) /\
  (closed (WriteToFile lib Write disk now c filename) = true <->
   file (WriteToFile lib Write disk now c filename) <> None) /\
  (ended (WriteToFile lib Write disk now c filename) = Returns None ->
   exists f', file (WriteToFile lib Write disk now c filename) = Some f' /\
              Close disk f' = None).
Proof.
  unfold WriteToFile.
  destruct (MkdirAll disk filename) as [e|]; cbn.
  - repeat split; try discriminate; try tauto. intros [H _]. discriminate.
  - destruct (Create disk filename) as [e|f]; cbn.
    + repeat split; try discriminate; try tauto. intros [_ [f H]]. discriminate.
    + destruct (WriteTo lib Write now c f _) as [n [e|] f'|f']; cbn;
        repeat split; try discriminate; try tauto; eauto.
      intros [= H]. eauto.
Qed.

(** X19: the count [WriteTo] returns is the length of the encoded
    configuration alone.  When the encoding succeeds and the writer
    takes the header and then the whole body, the call returns the
    number of bytes of the body and a nil error; the bytes of the header
    it wrote first are not counted. *)
Theorem WriteTo_counts_body_only
        {Other Fields W : Type} (lib : Library Other Fields)
        (Write : string -> W -> (Z * option error) * W)
        (now : string) (cfg : Config Fields) (w : W) (format b : string)
        (n1 : Z) (w1 w2 : W) :
  (if String.eqb format "json" then jsonMarshalIndent lib (Some cfg)
   else if String.eqb format "yaml" then MarshalAsYAML lib (Some cfg)
   else marshalTOML lib (Some cfg)) = inr b ->
  b <> EmptyString ->
  Write (header (AppName cfg) now) w = ((n1, None), w1) ->
  Write b w1 = ((Z.of_nat (String.length b), None), w2) ->
  WriteTo lib Write now (Some cfg) w format
  = Wrote (Z.of_nat (String.length b)) None w2.
Proof.
  intros Hm Hb Hh Hw. unfold WriteTo. rewrite Hm, Hh. unfold BufferWriteTo.
  destruct b as [|c b]; [contradiction|].
  cbn [String.length Nat.ltb Nat.leb]. rewrite Hw.
  now rewrite Z.ltb_irrefl, Z.eqb_refl.
Qed.

Lemma WriteTo_counts_body_only_witness :
  WriteTo lenient bufferWrite "2024-01-01T00:00:00Z" (Some web) EmptyString "toml"
  = Wrote (Z.of_nat (String.length "app = web")) None
          (header "web" "2024-01-01T00:00:00Z" ++ "app = web").
Proof.
  apply (WriteTo_counts_body_only lenient bufferWrite "2024-01-01T00:00:00Z" web
           EmptyString "toml" "app = web"
           (Z.of_nat (String.length (header "web" "2024-01-01T00:00:00Z")))
           (header "web" "2024-01-01T00:00:00Z")).
  - reflexivity.
  - discriminate.
  - reflexivity.
  - reflexivity.
Defined.

(** X20: [unmarshalYAML] panics exactly when the document decodes and
    has, somewhere below its top level, a map with a key that is not a
    string; the patches are never reached then. *)
Theorem unmarshalYAML_panics_iff
        {Other Fields : Type} (lib : Library Other Fields) (buf : string) :
  unmarshalYAML lib buf = Panic <->
  exists cfgMap, yamlUnmarshal lib buf = inr cfgMap /\ otherKey (Map cfgMap) = true.
Proof.
  unfold unmarshalYAML. destruct (yamlUnmarshal lib buf) as [e|cfgMap] eqn:Y.
  - split; [discriminate|]. intros (m & [=] & _).
  - destruct (stringifyYAMLMapKeys (Map cfgMap)) as [obj|] eqn:S.
    + assert (N : otherKey (Map cfgMap) = true -> False).
      { intros K. apply stringify_panics in K. congruence. }
      cbn [stringifyYAMLMapKeys] in S.
      destruct (forEach _ cfgMap) as [m'|]; [|discriminate].
      injection S as <-.
      split.
      * destruct (applyPatches lib m') as [cfg [err|]]; [|discriminate].
        destruct (yamlUnmarshal lib buf); discriminate.
      * intros (m & [= <-] & K). now destruct (N K).
    + split; [|reflexivity]. intros _. exists cfgMap. split; [reflexivity|].
      now apply stringify_panics.
Qed.

(** X21: an error of the patches never comes out of [LoadConfig].  When
    [LoadConfig] returns an error, either the file could not be read, or
    the decoder chosen by the suffix of the path ([.json], [.yaml],
    TOML for everything else) rejected its bytes; for TOML the error of
    a [DecodeError] is replaced by one that gives its row, column and
    text. *)
Theorem LoadConfig_errors
        {Other Fields : Type} (lib : Library Other Fields)
        (ReadFile : string -> error + string) (path : string) (e : error) :
  LoadConfig lib ReadFile path = Err e ->
  ReadFile path = inl e \/
  exists buf,
    ReadFile path = inr buf /\
    ((HasSuffix path ".json" = true /\ jsonUnmarshal lib buf = inl e) \/
     (HasSuffix path ".json" = false /\ HasSuffix path ".yaml" = true /\
      yamlUnmarshal lib buf = inl e) \/
     (HasSuffix path ".json" = false /\ HasSuffix path ".yaml" = false /\
      exists failure,
        tomlUnmarshal lib buf = inl failure /\
        e = match asDecodeError failure with
            | Some (row, col, text) =>
              Errorf ("row " ++ itoa row ++ " column " ++ itoa col ++ newline ++ text)
            | None => tomlError failure
            end)).
Proof.
  unfold LoadConfig. destruct (ReadFile path) as [e'|buf]; [intros [= ->]; now left|].
  intros H. right. exists buf. split; [reflexivity|].
  destruct (HasSuffix path ".json").
  - left. split; [reflexivity|]. unfold unmarshalJSON in H.
    destruct (jsonUnmarshal lib buf) as [e'|m]; [now injection H as ->|].
    destruct (applyPatches lib m) as [[cfg|] [err|]]; discriminate.
  - right. destruct (HasSuffix path ".yaml").
    + left. split; [reflexivity|]. split; [reflexivity|]. unfold unmarshalYAML in H.
      destruct (yamlUnmarshal lib buf) as [e'|m]; [now injection H as ->|].
      destruct (stringifyYAMLMapKeys (Map m)) as [[| | |m'|]|]; try discriminate.
      destruct (applyPatches lib m') as [[cfg|] [err|]]; discriminate.
    + right. split; [reflexivity|]. split; [reflexivity|]. unfold unmarshalTOML in H.
      destruct (tomlUnmarshal lib buf) as [failure|m].
      * exists failure. split; [reflexivity|].
        destruct (asDecodeError failure) as [[[row col] text]|]; congruence.
      * destruct (applyPatches lib m) as [[cfg|] [err|]]; discriminate.
Qed.

Lemma LoadConfig_errors_witness :
  (fun _ : string => @inr error string "{") "fly.json" = inl (Errorf "unexpected end of JSON input") \/
  exists buf,
    (fun _ : string => @inr error string "{") "fly.json" = inr buf /\
    ((HasSuffix "fly.json" ".json" = true /\
      jsonUnmarshal strict buf = inl (Errorf "unexpected end of JSON input")) \/
     (HasSuffix "fly.json" ".json" = false /\ HasSuffix "fly.json" ".yaml" = true /\
      yamlUnmarshal strict buf = inl (Errorf "unexpected end of JSON input")) \/
     (HasSuffix "fly.json" ".json" = false /\ HasSuffix "fly.json" ".yaml" = false /\
      exists failure,
        tomlUnmarshal strict buf = inl failure /\
        Errorf "unexpected end of JSON input"
        = match asDecodeError failure with
          | Some (row, col, text) =>
            Errorf ("row " ++ itoa row ++ " column " ++ itoa col ++ newline ++ text)
          | None => tomlError failure
          end)).
Proof.
  apply (LoadConfig_errors strict (fun _ => inr "{") "fly.json"). reflexivity.
Defined.

(** X22: the fallback of a TOML file.  When the file is read and decoded
    but the patches fail, [LoadConfig] still succeeds: the configuration
    it returns holds only the app name, taken from the key [app] of the
    document when that is a string and empty otherwise, the error of the
    patches in [v2UnmarshalError], and the path. *)
Theorem LoadConfig_fallback
        {Other Fields : Type} (lib : Library Other Fields)
        (ReadFile : string -> error + string) (path buf : string)
        (raw : list (string * any Other)) (cfg : option (Config Fields)) (err : error) :
  ReadFile path = inr buf ->
  HasSuffix path ".json" = false ->
  HasSuffix path ".yaml" = false ->
  tomlUnmarshal lib buf = inr raw ->
  applyPatches lib raw = (cfg, Some err) ->
  LoadConfig lib ReadFile path
  = Ok {| AppName := match lookup "app" raw with
                     | Some (Str name) => name
                     | _ => EmptyString
                     end;
          configFilePath := path;
          v2UnmarshalError := Some err;
          fields := zeroFields lib |}.
Proof.
  intros Hr Hj Hy Ht Hp. unfold LoadConfig, unmarshalTOML.
  now rewrite Hr, Hj, Hy, Ht, Hp.
Qed.

Lemma LoadConfig_fallback_witness :
  LoadConfig strict (fun _ => inr "app = 'web'") "fly.toml"
  = Ok {| AppName := "web"; configFilePath := "fly.toml";
          v2UnmarshalError := Some (Errorf "unknown section"); fields := tt |}.
Proof.
  apply (LoadConfig_fallback strict (fun _ => inr "app = 'web'") "fly.toml" "app = 'web'"
           [("app", Str "web")] None (Errorf "unknown section")); reflexivity.
Defined.

End appconfigFacts.

(** * Facts about the [version] tool *)

(** X23: the flag [--git-dir] has no effect.  The flag is bound to the
    variable [gitDir] that [main] declares, while the two commands read
    the variable of the package, which nothing assigns: whatever the
    flag says the run is the same, and every call into [relmeta] is made
    with the empty string as the git directory. *)
Theorem version_main_ignores_git_dir
        {Meta Version : Type} (relmeta : version.Relmeta Meta Version)
        (flag flag' : option string) (cmd : version.subcommand) (out : string) :
  version.main relmeta flag cmd out = version.main relmeta flag' cmd out /\
  Forall (fun c => version.callDir c = EmptyString)
         (version.calls (version.main relmeta flag cmd out)).
Proof.
  split; [reflexivity|].
  unfold version.main. destruct cmd.
  - unfold version.runShow. cbn [version.packageGitDir].
    destruct (version.RefreshTags relmeta EmptyString); cbn [version.calls];
      [repeat constructor|].
    destruct (version.GenerateReleaseMeta relmeta EmptyString _); cbn [version.calls];
      repeat constructor.
  - unfold version.runNext. cbn [version.packageGitDir].
    destruct (version.RefreshTags relmeta EmptyString); cbn [version.calls];
      [repeat constructor|].
    destruct (version.NextVersion relmeta EmptyString _); cbn [version.calls];
      repeat constructor.
Qed.


(** * Facts about [deployFromManifest] *)

(** X25: of the manifest only the app name is read.  Two manifests for
    the same app give the same run, whatever the rest of them says, and
    the deployment is built from the zero value of its arguments. *)
Theorem deployFromManifest_reads_only_AppName
        {AppConfig float64 MachineGuest File App Args MD : Type}
        (env : deploy.Collaborators App Args MD)
        (manifest manifest' : deploy.DeployManifest AppConfig float64 MachineGuest File) :
  deploy.AppName manifest = deploy.AppName manifest' ->
  deploy.deployFromManifest env manifest = deploy.deployFromManifest env manifest' /\
  Forall (eq (deploy.zeroArgs env))
         (deploy.builtFrom (deploy.deployFromManifest env manifest)).
Proof.
  intros H. unfold deploy.deployFromManifest. rewrite <- H. split; [reflexivity|].
  destruct (deploy.GetAppCompact env _); cbn; [constructor|].
  destruct (deploy.NewMachineDeployment env _); cbn; [repeat constructor|].
  destruct (deploy.DeployMachinesApp env _); cbn; repeat constructor.
Qed.

Lemma deployFromManifest_reads_only_AppName_witness :
  deploy.deployFromManifest deploy.sampleCollaborators
                            (deploy.sampleManifest "web" "rolling" "registry.fly.io/web:1")
  = deploy.deployFromManifest deploy.sampleCollaborators
                              (deploy.sampleManifest "web" "bluegreen" "registry.fly.io/web:2")
  /\ Forall (eq (deploy.zeroArgs deploy.sampleCollaborators))
            (deploy.builtFrom
               (deploy.deployFromManifest deploy.sampleCollaborators
                  (deploy.sampleManifest "web" "rolling" "registry.fly.io/web:1"))).
Proof.
  apply (deployFromManifest_reads_only_AppName deploy.sampleCollaborators
           (deploy.sampleManifest "web" "rolling" "registry.fly.io/web:1")
           (deploy.sampleManifest "web" "bluegreen" "registry.fly.io/web:2")).
  reflexivity.
Defined.


(** * Facts about [runSbom] *)

(** X27: [runSbom] returns nil exactly when the app, the image path, the
    token and the response were all obtained, the status of the response
    is 200 and copying its body to the output succeeded.  In every other
    run that does not reach the copy, a status other than 200 included,
    the output is left as it was; and the body of every response
    obtained is closed. *)
Theorem runSbom_nil_iff
        {App Out : Type} (env : registry.Collaborators App Out)
        (appName : string) (ios : Out) :
  (registry.failure (registry.runSbom env appName ios) = None <->
   exists app imgPath token res ios',
     registry.GetAppCompact env appName = inr app /\
     registry.argsGetImgPath env app = inr imgPath /\
     registry.makeScantronToken env (registry.organizationID env app)
                                (registry.appID env app) = inr token /\
     registry.scantronSbomReq env imgPath token = inr res /\
     registry.StatusCode res = registry.StatusOK /\
     registry.Copy env ios (registry.Body res) = (None, ios') /\
     registry.out (registry.runSbom env appName ios) = ios') /\
  (registry.out (registry.runSbom env appName ios) = ios \/
   exists app imgPath token res,
     registry.GetAppCompact env appName = inr app /\
     registry.argsGetImgPath env app = inr imgPath /\
     registry.makeScantronToken env (registry.organizationID env app)
                                (registry.appID env app) = inr token /\
     registry.scantronSbomReq env imgPath token = inr res /\
     registry.StatusCode res = registry.StatusOK /\
     registry.out (registry.runSbom env appName ios)
     = snd (registry.Copy env ios (registry.Body res))) /\
  (registry.bodyClosed (registry.runSbom env appName ios) = true <->
   exists app imgPath token res,
     registry.GetAppCompact env appName = inr app /\
     registry.argsGetImgPath env app = inr imgPath /\
     registry.makeScantronToken env (registry.organizationID env app)
                                (registry.appID env app) = inr token /\
     registry.scantronSbomReq env imgPath token = inr res).
Proof.
  unfold registry.runSbom.
  destruct (registry.GetAppCompact env appName) as [e|app]; cbn.
  { split; [|split]; [split; [discriminate|intros (?&?&?&?&?&[=]&_)]|now left|].
    split; [discriminate|intros (?&?&?&?&[=]&_)]. }
  destruct (registry.argsGetImgPath env app) as [e|imgPath] eqn:Hi; cbn.
  { split; [|split]; [split; [discriminate|]|now left|split; [discriminate|]].
    - intros (a&?&?&?&?&[= <-]&H&_). congruence.
    - intros (a&?&?&?&[= <-]&H&_). congruence. }
  destruct (registry.makeScantronToken env _ _) as [e|token] eqn:Ht; cbn.
  { split; [|split]; [split; [discriminate|]|now left|split; [discriminate|]].
    - intros (a&?&?&?&?&[= <-]&_&H&_). congruence.
    - intros (a&?&?&?&[= <-]&_&H&_). congruence. }
  destruct (registry.scantronSbomReq env imgPath token) as [e|res] eqn:Hq; cbn.
  { split; [|split]; [split; [discriminate|]|now left|split; [discriminate|]].
    - intros (a&i&t&?&?&[= <-]&Hi'&Ht'&H&_).
      rewrite Hi in Hi'. injection Hi' as <-. rewrite Ht in Ht'. injection Ht' as <-.
      congruence.
    - intros (a&i&t&?&[= <-]&Hi'&Ht'&H).
      rewrite Hi in Hi'. injection Hi' as <-. rewrite Ht in Ht'. injection Ht' as <-.
      congruence. }
  assert (C : exists app0 imgPath0 token0 res0,
             @inr error App app = inr app0 /\
             registry.argsGetImgPath env app0 = inr imgPath0 /\
             registry.makeScantronToken env (registry.organizationID env app0)
                                        (registry.appID env app0) = inr token0 /\
             registry.scantronSbomReq env imgPath0 token0 = inr res0).
  { now exists app, imgPath, token, res. }
  assert (U : forall a i t r,
             @inr error App app = inr a ->
             registry.argsGetImgPath env a = inr i ->
             registry.makeScantronToken env (registry.organizationID env a)
                                        (registry.appID env a) = inr t ->
             registry.scantronSbomReq env i t = inr r -> r = res).
  { intros a i t r [= <-] Hi' Ht' Hq'.
    rewrite Hi in Hi'. injection Hi' as <-. rewrite Ht in Ht'. injection Ht' as <-.
    congruence. }
  destruct (Z.eqb_spec (registry.StatusCode res) registry.StatusOK) as [Hs|Hs]; cbn.
  - destruct (registry.Copy env ios (registry.Body res)) as [[e|] ios'] eqn:Hc; cbn.
    + split; [|split]; [split; [discriminate|]| |split; [intros _; exact C|reflexivity]].
      * intros (a&i&t&r&o&Ha&Hi'&Ht'&Hq'&_&Hc'&_).
        rewrite (U a i t r Ha Hi' Ht' Hq') in Hc'. congruence.
      * right. exists app, imgPath, token, res. now rewrite Hc.
    + split; [|split]; [split; [intros _|reflexivity]| |split; [intros _; exact C|reflexivity]].
      * now exists app, imgPath, token, res, ios'.
      * right. exists app, imgPath, token, res. now rewrite Hc.
  - split; [|split]; [split; [discriminate|]|now left|split; [intros _; exact C|reflexivity]].
    intros (a&i&t&r&o&Ha&Hi'&Ht'&Hq'&Hs'&_).
    rewrite (U a i t r Ha Hi' Ht' Hq') in Hs'. contradiction.
Qed.
